(** * Synthetic seismogram: a shallow embedding of [syntheticSeismogram.py]

    The numerical core of the program (impedance, reflectivity with
    transmission loss, time-depth conversion, the three wavelets and the
    synthesis itself) is embedded here function by function.

    - A [float64] is an extended real: a real number, one of the two
      infinities, or NaN.  Rounding and overflow are not modelled, and the
      two signed zeros are one value (so [x / 0] takes the sign of [x]).
    - A NumPy array is a Python object: arrays live in an object store and
      are passed by reference, so that [rseries = R] in [getReflectivity]
      makes two names for one object.
    - A Python exception is an error result; the object store survives it. *)

From Stdlib Require Import String.
From Stdlib Require Import Reals Lra Lia List Bool Arith ZArith Sorted
  Permutation.
Import ListNotations.

Open Scope R_scope.

(** ** Floating-point values *)

Inductive npfloat : Type :=
| Fin (x : R)
| PInf
| NInf
| NaN.

Module Float.

Definition zero : npfloat := Fin 0.
Definition one : npfloat := Fin 1.
Definition two : npfloat := Fin 2.

(** Sign of a real: used where an infinity meets a finite factor. *)
Inductive sign := Neg | Zer | Pos.

Definition sgn (x : R) : sign :=
  if Rlt_dec 0 x then Pos else if Rlt_dec x 0 then Neg else Zer.

Definition neg (a : npfloat) : npfloat :=
  match a with
  | Fin x => Fin (- x)
  | PInf => NInf
  | NInf => PInf
  | NaN => NaN
  end.

Definition add (a b : npfloat) : npfloat :=
  match a, b with
  | NaN, _ | _, NaN => NaN
  | Fin x, Fin y => Fin (x + y)
  | PInf, NInf | NInf, PInf => NaN
  | PInf, _ | _, PInf => PInf
  | NInf, _ | _, NInf => NInf
  end.

Definition sub (a b : npfloat) : npfloat := add a (neg b).

(** [inf_signed s]: the infinity of sign [s]; [inf * 0] is NaN. *)
Definition inf_signed (s : sign) : npfloat :=
  match s with Pos => PInf | Neg => NInf | Zer => NaN end.

Definition mul (a b : npfloat) : npfloat :=
  match a, b with
  | NaN, _ | _, NaN => NaN
  | Fin x, Fin y => Fin (x * y)
  | PInf, PInf | NInf, NInf => PInf
  | PInf, NInf | NInf, PInf => NInf
  | PInf, Fin y => inf_signed (sgn y)
  | Fin x, PInf => inf_signed (sgn x)
  | NInf, Fin y => neg (inf_signed (sgn y))
  | Fin x, NInf => neg (inf_signed (sgn x))
  end.

(** NumPy division never raises: [0/0] is NaN, [x/0] an infinity. *)
Definition div (a b : npfloat) : npfloat :=
  match a, b with
  | NaN, _ | _, NaN => NaN
  | Fin x, Fin y =>
      if Req_dec_T y 0 then inf_signed (sgn x) else Fin (x / y)
  | Fin _, (PInf | NInf) => Fin 0
  | (PInf | NInf), (PInf | NInf) => NaN
  | PInf, Fin y => if Rlt_dec y 0 then NInf else PInf
  | NInf, Fin y => if Rlt_dec y 0 then PInf else NInf
  end.

(** [x ** 2] *)
Definition sq (a : npfloat) : npfloat := mul a a.

Definition abs (a : npfloat) : npfloat :=
  match a with
  | Fin x => Fin (Rabs x)
  | PInf | NInf => PInf
  | NaN => NaN
  end.

Definition exp (a : npfloat) : npfloat :=
  match a with
  | Fin x => Fin (Rtrigo_def.exp x)
  | PInf => PInf
  | NInf => Fin 0
  | NaN => NaN
  end.

Definition sin (a : npfloat) : npfloat :=
  match a with
  | Fin x => Fin (Rtrigo_def.sin x)
  | _ => NaN
  end.

Definition cos (a : npfloat) : npfloat :=
  match a with
  | Fin x => Fin (Rtrigo_def.cos x)
  | _ => NaN
  end.

(** IEEE comparisons: anything compared with NaN is false. *)
Definition leb (a b : npfloat) : bool :=
  match a, b with
  | NaN, _ | _, NaN => false
  | NInf, _ | _, PInf => true
  | Fin x, Fin y => if Rle_dec x y then true else false
  | _, _ => false
  end.

Definition ltb (a b : npfloat) : bool :=
  match a, b with
  | NaN, _ | _, NaN => false
  | PInf, _ | _, NInf => false
  | Fin x, Fin y => if Rlt_dec x y then true else false
  | _, _ => true
  end.

Definition geb (a b : npfloat) : bool := leb b a.

Definition is_nan (a : npfloat) : bool :=
  match a with NaN => true | _ => false end.

(** The order [np.sort] uses: the IEEE order with every NaN last. *)
Definition sort_leb (a b : npfloat) : bool :=
  match a, b with
  | _, NaN => true
  | NaN, _ => false
  | _, _ => leb a b
  end.

(** [np.sinc x = sin (pi x) / (pi x)], and 1 at 0. *)
Definition sinc (a : npfloat) : npfloat :=
  match a with
  | Fin x => if Req_dec_T x 0 then Fin 1
             else Fin (Rtrigo_def.sin (PI * x) / (PI * x))
  | PInf | NInf => NaN
  | NaN => NaN
  end.

End Float.

Declare Scope npfloat_scope.
Delimit Scope npfloat_scope with fl.
Bind Scope npfloat_scope with npfloat.
Infix "+" := Float.add : npfloat_scope.
Infix "-" := Float.sub : npfloat_scope.
Infix "*" := Float.mul : npfloat_scope.
Infix "/" := Float.div : npfloat_scope.
Notation "- x" := (Float.neg x) : npfloat_scope.

Definition pi : npfloat := Fin PI.

(** ** Exceptions and results *)

Inductive exn : Type :=
| ValueError       (* shapes that do not broadcast, empty reductions, arange *)
| IndexError
| TypeError        (* [len] of a scalar *)
| AssertionError
| KeyError         (* unknown wavelet name *)
| DanglingRef.     (* a reference that names no object: not reachable from Python *)

Inductive result (A : Type) : Type :=
| Ok (a : A)
| Raise (e : exn).

Arguments Ok {A} a.
Arguments Raise {A} e.

(** ** NumPy on one-dimensional arrays (values) *)

Definition ndarray := list npfloat.

Module Np.

(** Elementwise binary operation with NumPy broadcasting of 1-D shapes:
    equal lengths go elementwise, a length-1 operand is stretched, any
    other pair of lengths raises [ValueError]. *)
Fixpoint zip_with {A B C} (f : A -> B -> C) (a : list A) (b : list B)
  : list C :=
  match a, b with
  | x :: a', y :: b' => f x y :: zip_with f a' b'
  | _, _ => []
  end.

Definition binop {A B C} (f : A -> B -> C) (a : list A) (b : list B)
  : result (list C) :=
  if Nat.eqb (length a) (length b) then Ok (zip_with f a b)
  else match a, b with
       | _, [y] => Ok (map (fun x => f x y) a)
       | [x], _ => Ok (map (fun y => f x y) b)
       | _, _ => Raise ValueError
       end.

(** [a[1:]], [a[:-1]], [a[1:-1]], [a[i:]] *)
Definition from1 (a : ndarray) : ndarray := tl a.
Definition upto_last (a : ndarray) : ndarray := removelast a.
Definition interior (a : ndarray) : ndarray := removelast (tl a).
Definition from (i : nat) (a : ndarray) : ndarray := skipn i a.

(** [a[i]] for [0 <= i] *)
Definition getitem (a : ndarray) (i : nat) : result npfloat :=
  match nth_error a i with
  | Some x => Ok x
  | None => Raise IndexError
  end.

(** [a[i] = x] *)
Fixpoint set_nth (a : ndarray) (i : nat) (x : npfloat) : ndarray :=
  match a, i with
  | [], _ => []
  | _ :: a', O => x :: a'
  | y :: a', S i' => y :: set_nth a' i' x
  end.

Definition setitem (a : ndarray) (i : nat) (x : npfloat) : result ndarray :=
  if Nat.ltb i (length a) then Ok (set_nth a i x) else Raise IndexError.

(** [a[i:] = b] where [b] has the length of [a[i:]] *)
Definition setslice_from (i : nat) (a b : ndarray) : ndarray :=
  firstn i a ++ b.

(** [np.diff] *)
Fixpoint diff (a : ndarray) : ndarray :=
  match a with
  | x :: ((y :: _) as a') => (y - x)%fl :: diff a'
  | _ => []
  end.

(** [np.cumsum] *)
Fixpoint cumsum_from (acc : npfloat) (a : ndarray) : ndarray :=
  match a with
  | [] => []
  | x :: a' => (acc + x)%fl :: cumsum_from (acc + x)%fl a'
  end.

Definition cumsum (a : ndarray) : ndarray :=
  match a with
  | [] => []
  | x :: a' => x :: cumsum_from x a'
  end.

(** [np.sum] *)
Definition sum (a : ndarray) : npfloat :=
  fold_left Float.add a Float.zero.

(** [np.sort]: ascending, NaN last *)
Fixpoint insert (x : npfloat) (a : ndarray) : ndarray :=
  match a with
  | [] => [x]
  | y :: a' => if Float.sort_leb x y then x :: a else y :: insert x a'
  end.

Fixpoint sort (a : ndarray) : ndarray :=
  match a with
  | [] => []
  | x :: a' => insert x (sort a')
  end.

(** [np.min], [np.max]: NaN wins; empty raises *)
Definition minimum (a b : npfloat) : npfloat :=
  if Float.is_nan a then a else if Float.is_nan b then b
  else if Float.leb a b then a else b.

Definition maximum (a b : npfloat) : npfloat :=
  if Float.is_nan a then a else if Float.is_nan b then b
  else if Float.leb b a then a else b.

Definition amin (a : ndarray) : result npfloat :=
  match a with
  | [] => Raise ValueError
  | x :: a' => Ok (fold_left minimum a' x)
  end.

Definition amax (a : ndarray) : result npfloat :=
  match a with
  | [] => Raise ValueError
  | x :: a' => Ok (fold_left maximum a' x)
  end.

(** [a.argmin()]: first index of the least element, a NaN counting as
    least; empty raises. *)
Definition before (a b : npfloat) : bool :=
  if Float.is_nan b then false
  else if Float.is_nan a then true else Float.ltb a b.

Fixpoint argmin_from (best : npfloat) (ibest i : nat) (a : ndarray) : nat :=
  match a with
  | [] => ibest
  | x :: a' => if before x best then argmin_from x i (S i) a'
               else argmin_from best ibest (S i) a'
  end.

Definition argmin (a : ndarray) : result nat :=
  match a with
  | [] => Raise ValueError
  | x :: a' => Ok (argmin_from x 0 1 a')
  end.

(** [np.zeros n], [np.arange n] as floats *)
Definition zeros (n : nat) : ndarray := repeat Float.zero n.
Definition iota (n : nat) : ndarray := map (fun i => Fin (INR i)) (seq 0 n).

(** [np.arange start stop step]: [ceil ((stop - start) / step)] samples
    [start + i * step]; a length that is not a finite number raises. *)
Definition ceil (x : R) : Z := (- Int_part (- x))%Z.

Definition arange (start stop step : npfloat) : result ndarray :=
  match ((stop - start) / step)%fl with
  | Fin q =>
      Ok (map (fun i => (start + Fin (INR i) * step)%fl)
              (seq 0 (Z.to_nat (ceil q))))
  | _ => Raise ValueError
  end.

(** [np.convolve a v] (mode full): [c[k] = sum_j a[j] * v[k - j]];
    an empty operand raises. *)
Fixpoint padd (a b : ndarray) : ndarray :=
  match a, b with
  | [], _ => b
  | _, [] => a
  | x :: a', y :: b' => (x + y)%fl :: padd a' b'
  end.

Fixpoint conv (a v : ndarray) : ndarray :=
  match a with
  | [] => []
  | x :: a' =>
      match map (Float.mul x) v with
      | [] => []
      | y :: ys => y :: padd ys (conv a' v)
      end
  end.

Definition convolve (a v : ndarray) : result ndarray :=
  match a, v with
  | [], _ | _, [] => Raise ValueError
  | _, _ => Ok (conv a v)
  end.

(** [np.ones n], and [np.kron a b] of two vectors *)
Definition ones (n : nat) : ndarray := repeat Float.one n.
Definition kron (a b : ndarray) : ndarray :=
  flat_map (fun x => map (Float.mul x) b) a.

(** [a[mask]] *)
Fixpoint compress (mask : list bool) (a : ndarray) : ndarray :=
  match mask, a with
  | m :: mask', x :: a' =>
      if m then x :: compress mask' a' else compress mask' a'
  | _, _ => []
  end.

End Np.

(** ** Complex values, for the Klauder sweep *)

Definition cplx : Type := npfloat * npfloat.

Module Cplx.

Definition of_real (x : npfloat) : cplx := (x, Float.zero).
Definition j : cplx := (Float.zero, Float.one).

Definition mul (a b : cplx) : cplx :=
  let '(ar, ai) := a in
  let '(br, bi) := b in
  ((ar * br - ai * bi)%fl, (ar * bi + ai * br)%fl).

Definition exp (a : cplx) : cplx :=
  let '(ar, ai) := a in
  ((Float.exp ar * Float.cos ai)%fl, (Float.exp ar * Float.sin ai)%fl).

Definition real (a : cplx) : npfloat := fst a.

End Cplx.

(** ** The object store *)

Definition ref := nat.
Definition heap := list ndarray.

(** A computation reads and extends the store and returns or raises; the
    store it leaves is there in both cases. *)
Definition M (A : Type) : Type := heap -> result A * heap.

Definition ret {A} (a : A) : M A := fun h => (Ok a, h).

Definition bind {A B} (m : M A) (k : A -> M B) : M B :=
  fun h =>
    match m h with
    | (Ok a, h') => k a h'
    | (Raise e, h') => (Raise e, h')
    end.

Definition raise {A} (e : exn) : M A := fun h => (Raise e, h).

Definition lift {A} (r : result A) : M A := fun h => (r, h).

Notation "x <- m ;; k" := (bind m (fun x => k))
  (at level 61, m at next level, right associativity).
Notation "m ;;; k" := (bind m (fun _ => k))
  (at level 61, right associativity).
Notation "' pat <- m ;; k" :=
  (bind m (fun x => match x with pat => k end))
  (at level 61, pat pattern, m at next level, right associativity).

Fixpoint list_set {A} (l : list A) (i : nat) (x : A) : list A :=
  match l, i with
  | [], _ => []
  | _ :: l', O => x :: l'
  | y :: l', S i' => y :: list_set l' i' x
  end.

(** A new array object. *)
Definition alloc (a : ndarray) : M ref :=
  fun h => (Ok (length h), h ++ [a]).

(** The contents of an object. *)
Definition load (r : ref) : M ndarray :=
  fun h =>
    match nth_error h r with
    | Some a => (Ok a, h)
    | None => (Raise DanglingRef, h)
    end.

(** In-place update of an object. *)
Definition store (r : ref) (a : ndarray) : M unit :=
  fun h =>
    if Nat.ltb r (length h) then (Ok tt, list_set h r a)
    else (Raise DanglingRef, h).

(** A new array from a value-level NumPy result. *)
Definition alloc_r (a : result ndarray) : M ref :=
  v <- lift a ;; alloc v.

(** [for x in l: body x] *)
Fixpoint for_ {A} (l : list A) (body : A -> M unit) : M unit :=
  match l with
  | [] => ret tt
  | x :: l' => body x ;;; for_ l' body
  end.

Definition range (n : nat) : list nat := seq 0 n.

Definition assert (b : bool) : M unit :=
  if b then ret tt else raise AssertionError.

(** An argument that is a Python float (or a 0-d array) or an array. *)
Inductive pyarg : Type :=
| Scalar (x : npfloat)
| Arr (r : ref).

(** [np.array(a, dtype=float)]: a copy *)
Definition np_array (a : ref) : M ref :=
  v <- load a ;; alloc v.

(** [len(a)]; a scalar has no length *)
Definition len (a : ref) : M nat :=
  v <- load a ;; ret (length v).

Definition len_arg (a : pyarg) : M nat :=
  match a with
  | Scalar _ => raise TypeError
  | Arr r => len r
  end.

(** [np.min(a)] of a scalar is the scalar *)
Definition min_arg (a : pyarg) : M npfloat :=
  match a with
  | Scalar x => ret x
  | Arr r => v <- load r ;; lift (Np.amin v)
  end.

(** ** The program *)

(** [getPlotLog(d, log, dmax)]: every sample twice ([np.kron] with
    [np.ones(2)]), the depths shifted by one and closed with [dmax]. *)
Definition getPlotLog (d log : ref) (dmax : npfloat) : M (ref * ref) :=
  d <- np_array d ;;
  log <- np_array log ;;
  dv <- load d ;;
  dplot <- alloc (Np.kron dv (Np.ones 2)) ;;
  lv <- load log ;;
  logplot <- alloc (Np.kron lv (Np.ones 2)) ;;
  dp <- load dplot ;;
  dplot <- alloc (Np.from1 dp ++ [dmax]) ;;
  ret (dplot, logplot).

(** [getImpedance(rholog, vlog)] *)
Definition getImpedance (rholog vlog : ref) : M ref :=
  rholog <- np_array rholog ;;
  vlog <- np_array vlog ;;
  rv <- load rholog ;;
  vv <- load vlog ;;
  alloc_r (Np.binop Float.mul rv vv).

(** [getReflectivity(d, rho, v, usingT)].  [rseries = R] binds a second
    name to the object [R]; the loop updates that object in place and
    reads [R[i]] from it. *)
Definition getReflectivity (d rho v : ref) (usingT : bool) : M (ref * ref) :=
  Z <- getImpedance rho v ;;
  Zv <- load Z ;;
  dZ <- alloc_r (Np.binop Float.sub (Np.from1 Zv) (Np.upto_last Zv)) ;;
  sZ <- alloc_r (Np.binop Float.add (Np.upto_last Zv) (Np.from1 Zv)) ;;
  dZv <- load dZ ;;
  sZv <- load sZ ;;
  R <- alloc_r (Np.binop Float.div dZv sZv) ;;
  nlayer <- len v ;;
  let rseries := R in
  (if usingT then
     for_ (range (nlayer - 1)) (fun i =>
       rs <- load rseries ;;
       Rv <- load R ;;
       Ri <- lift (Np.getitem Rv i) ;;
       store rseries
         (Np.setslice_from (i + 1) rs
            (map (fun x => (x * (Float.one - Float.sq Ri))%fl)
                 (Np.from (i + 1) rs))))
   else ret tt) ;;;
  ret (rseries, R).

(** [getTimeDepth(d, v, dmax)] *)
Definition getTimeDepth (d v : ref) (dmax : npfloat) : M (ref * ref) :=
  dv <- load d ;;
  d <- alloc (Np.sort dv) ;;
  dv <- load d ;;
  d <- alloc (dv ++ [dmax]) ;;
  dv <- load d ;;
  vv <- load v ;;
  twttop <- alloc_r (Np.binop Float.div
                       (map (Float.mul Float.two) (Np.diff dv)) vv) ;;
  tw <- load twttop ;;
  twttop <- alloc (Float.zero :: tw) ;;
  tw <- load twttop ;;
  twttop <- alloc (Np.cumsum tw) ;;
  ret (d, twttop).

(** [getLogs(d, rho, v, usingT)]: here [usingT] is handed on. *)
Definition getLogs (d rho v : ref) (usingT : bool)
  : M (ref * ref * ref * ref * ref) :=
  '(dpth, rholog) <- getPlotLog d rho (Fin 200) ;;
  '(_, vlog) <- getPlotLog d v (Fin 200) ;;
  zlog <- getImpedance rholog vlog ;;
  '(rseries, _) <- getReflectivity d rho v usingT ;;
  ret (dpth, rholog, vlog, zlog, rseries).

(** *** Wavelets *)

(** One sample of the Ricker wavelet, from [pift = pi*f*t]:
    [(1 - 2*pift**2) * exp(-pift**2)]. *)
Definition ricker_sample (pift : npfloat) : npfloat :=
  ((Float.one - Float.two * Float.sq pift)
   * Float.exp (- Float.sq pift))%fl.

(** [getRicker(f, t)]: the length assertion is commented out in the source,
    so [f] is whatever the caller passes and [pi*f*t] broadcasts. *)
Definition getRicker (f : pyarg) (t : ref) : M ref :=
  tv <- load t ;;
  pift <- match f with
          | Scalar x => alloc (map (Float.mul (pi * x)%fl) tv)
          | Arr r =>
              fv <- load r ;;
              alloc_r (Np.binop Float.mul (map (Float.mul pi) fv) tv)
          end ;;
  pv <- load pift ;;
  alloc (map ricker_sample pv).

(** [getOrmsby(f, t)] *)
Definition getOrmsby (f : pyarg) (t : ref) : M ref :=
  n <- len_arg f ;;
  assert (Nat.eqb n 4) ;;;
  match f with
  | Scalar _ => raise TypeError
  | Arr r =>
      fv <- load r ;;
      f <- alloc (Np.sort fv) ;;
      fv <- load f ;;
      pif <- alloc (map (Float.mul pi) fv) ;;
      pv <- load pif ;;
      p3 <- lift (Np.getitem pv 3) ;;
      p2 <- lift (Np.getitem pv 2) ;;
      let den1 := (p3 - p2)%fl in
      p1 <- lift (Np.getitem pv 1) ;;
      p0 <- lift (Np.getitem pv 0) ;;
      let den2 := (p1 - p0)%fl in
      tv <- load t ;;
      term1 <- alloc (map (fun x =>
                 (Float.sq (p3 * Float.sinc (p3 * x))
                  - Float.sq (p2 * Float.sinc p2))%fl) tv) ;;
      term2 <- alloc (map (fun x =>
                 (Float.sq (p1 * Float.sinc (p1 * x))
                  - Float.sq (p0 * Float.sinc p0))%fl) tv) ;;
      t1 <- load term1 ;;
      t2 <- load term2 ;;
      alloc_r (Np.binop Float.sub
                 (map (fun x => (x / den1)%fl) t1)
                 (map (fun x => (x / den2)%fl) t2))
  end.

(** [2*pi*1j] *)
Definition two_pi_j : cplx :=
  Cplx.mul (Cplx.of_real (Float.two * pi)%fl) Cplx.j.

(** [getKlauder(f, t, T)] *)
Definition getKlauder (f : pyarg) (t : ref) (T : npfloat) : M ref :=
  n <- len_arg f ;;
  assert (Nat.eqb n 2) ;;;
  match f with
  | Scalar _ => raise TypeError
  | Arr r =>
      fv <- load r ;;
      k <- alloc (map (fun x => (x / T)%fl) (Np.diff fv)) ;;
      let f0 := (Np.sum fv / Float.two)%fl in
      kv <- load k ;;
      tv <- load t ;;
      pkt <- lift (Np.binop Float.mul (map (Float.mul pi) kv) tv) ;;
      arg <- lift (Np.binop Float.mul pkt
                     (map (fun x => (T - x)%fl) tv)) ;;
      env <- lift (Np.binop Float.div (map Float.sin arg) pkt) ;;
      let carrier :=
        map (fun x =>
               Cplx.exp (Cplx.mul (Cplx.mul two_pi_j (Cplx.of_real f0))
                                  (Cplx.of_real x))) tv in
      prod <- lift (Np.binop (fun e c => Cplx.mul (Cplx.of_real e) c)
                             env carrier) ;;
      alloc (map Cplx.real prod)
  end.

Definition T_default : npfloat := Fin 5.

(** The dictionary [{'RICKER': getRicker, 'ORMSBY': getOrmsby,
    'KLAUDER': getKlauder}], indexed by [wavtyp]. *)
Definition wavelet_table : list (string * (pyarg -> ref -> M ref)) :=
  [ ("RICKER"%string, getRicker);
    ("ORMSBY"%string, getOrmsby);
    ("KLAUDER"%string, fun f t => getKlauder f t T_default) ].

Fixpoint lookup {A} (key : string) (tbl : list (string * A)) : M A :=
  match tbl with
  | [] => raise KeyError
  | (k, x) :: tbl' => if String.eqb key k then ret x else lookup key tbl'
  end.

(** *** The synthesis *)

(** What [syntheticSeismogram] returns: six array objects. *)
Record outputs : Type := Outputs {
  out_tseis : ref;
  out_seis : ref;
  out_twav : ref;
  out_wav : ref;
  out_tref : ref;
  out_rseries : ref
}.

(** [syntheticSeismogram(d, rho, v, wavf, wavA, usingT, wavtyp, dt, dmax)].
    The source converts [usingT] to a boolean array and then calls
    [getReflectivity(d, rho, v)] without it, so the callee's default
    ([usingT=True]) is what runs. *)
Definition syntheticSeismogram (d rho v : ref) (wavf : pyarg) (wavA : npfloat)
    (usingT : bool) (wavtyp : string) (dt dmax : npfloat) : M outputs :=
  v <- np_array v ;;
  rho <- np_array rho ;;
  d <- np_array d ;;
  '(_, t) <- getTimeDepth d v dmax ;;
  '(rseries, R) <- getReflectivity d rho v true ;;
  (* time for reflectivity series *)
  tv <- load t ;;
  tref <- alloc (Np.interior tv) ;;
  (* create time vector *)
  tmin <- lift (Np.amin tv) ;;
  tmax <- lift (Np.amax tv) ;;
  t <- alloc_r (Np.arange tmin tmax dt) ;;
  (* make wavelet *)
  fmin <- min_arg wavf ;;
  twav <- alloc_r (Np.arange (Fin (-2) / fmin)%fl (Fin 2 / fmin)%fl dt) ;;
  (* get source wavelet *)
  getwav <- lookup wavtyp wavelet_table ;;
  wav <- getwav wavf twav ;;
  wv <- load wav ;;
  wav <- alloc (map (Float.mul wavA) wv) ;;
  n <- len t ;;
  rseriesconv <- alloc (Np.zeros n) ;;
  m <- len tref ;;
  for_ (range m) (fun i =>
    tv <- load t ;;
    trv <- load tref ;;
    tri <- lift (Np.getitem trv i) ;;
    index <- lift (Np.argmin (map (fun x => Float.abs (x - tri)%fl) tv)) ;;
    rsv <- load rseries ;;
    ri <- lift (Np.getitem rsv i) ;;
    rc <- load rseriesconv ;;
    rc <- lift (Np.setitem rc index ri) ;;
    store rseriesconv rc) ;;;
  (* do the convolution *)
  wv <- load wav ;;
  rc <- load rseriesconv ;;
  seis <- alloc_r (Np.convolve wv rc) ;;
  sv <- load seis ;;
  twv <- load twav ;;
  tw0 <- lift (Np.amin twv) ;;
  tseis <- alloc (map (fun i => (tw0 + dt * i)%fl) (Np.iota (length sv))) ;;
  tsv <- load tseis ;;
  tv <- load t ;;
  tmax <- lift (Np.amax tv) ;;
  let index :=
    map (fun x => Float.geb x Float.zero && Float.leb x tmax) tsv in
  tseis <- alloc (Np.compress index tsv) ;;
  seis <- alloc (Np.compress index sv) ;;
  ret (Outputs tseis seis twav wav tref rseries).

(** ** Example models *)

(** The three-layer model of the program's [__main__] block. *)
Definition main_d : ndarray := map Fin [0; 50; 100].
Definition main_rho : ndarray := map Fin [2000; 2300; 2500].
Definition main_v : ndarray := map Fin [500; 1000; 1500].
Definition main_heap : heap := [main_d; main_rho; main_v].

(** A fourth layer under the model of [__main__]. *)
Definition four_d : ndarray := map Fin [0; 50; 100; 150].
Definition four_rho : ndarray := map Fin [2000; 2300; 2500; 2700].
Definition four_v : ndarray := map Fin [500; 1000; 1500; 2000].
Definition four_heap : heap := [four_d; four_rho; four_v].

(** Two time axes, one the negation of the other, and two frequencies. *)
Definition wavelet_heap : heap :=
  [map Fin [-1/100; 0; 1/100]; map Fin (map Ropp [-1/100; 0; 1/100]);
   map Fin [10; 60]].

(** The two-way times of the model of [__main__] for [dmax = 200], and
    the time grid of step [1/10] over them. *)
Definition main_times : ndarray := map Fin [0; 1/5; 3/10; 13/30].
(** Its effective reflectivity as [getReflectivity] computes it. *)
Definition main_effective : ndarray := [Fin (13/33); Fin (26680/131769)].
Definition main_grid : ndarray := map Fin [0; 1/10; 2/10; 3/10; 4/10].

Close Scope R_scope.

(** ** Predicates on runs *)

(** Every object of [h] is there in [h'] with the contents it had. *)
Definition untouched (h h' : heap) : Prop :=
  forall r a, nth_error h r = Some a -> nth_error h' r = Some a.

(** [frames n m Q]: run from any store with at least [n] objects, [m]
    leaves the first [n] objects as they were, deletes nothing, and
    returns a value satisfying [Q] when it returns. *)
Definition frames {A} (n : nat) (m : M A) (Q : A -> Prop) : Prop :=
  forall h, n <= length h ->
    firstn n (snd (m h)) = firstn n h /\
    length h <= length (snd (m h)) /\
    match fst (m h) with Ok a => Q a | Raise _ => True end.

(** Each entry is at least the one before it, in the floating-point order. *)
Definition nondecreasing (a : ndarray) : Prop :=
  forall i x y,
    nth_error a i = Some x -> nth_error a (S i) = Some y ->
    Float.leb x y = true.

(** One pass of the loop of [getReflectivity] on the contents [rs] of the
    object that [rseries] and [R] both name: [R[i]] is read from [rs]. *)
Definition attenuate_below (i : nat) (rs : ndarray) : result ndarray :=
  match Np.getitem rs i with
  | Ok Ri =>
      Ok (Np.setslice_from (i + 1) rs
            (map (fun x => (x * (Float.one - Float.sq Ri))%fl)
                 (Np.from (i + 1) rs)))
  | Raise e => Raise e
  end.

(** The passes for the indices [l] in turn; the contents reached are
    returned also when a pass raises. *)
Fixpoint attenuate_all (l : list nat) (rs : ndarray) : result unit * ndarray :=
  match l with
  | [] => (Ok tt, rs)
  | i :: l' =>
      match attenuate_below i rs with
      | Ok rs' => attenuate_all l' rs'
      | Raise e => (Raise e, rs)
      end
  end.

(** The reflection coefficients as the docstring of [getReflectivity] and
    the specification give them, from the impedances:
    [R_i = (Z_{i+1} - Z_i) / (Z_{i+1} + Z_i)]. *)
Definition reflection_coefficients (Z : ndarray) : ndarray :=
  Np.zip_with (fun z0 z1 => ((z1 - z0) / (z1 + z0))%fl) (removelast Z) (tl Z).

(** The reflectivity with transmission loss as the docstring and the
    specification give it: [R_i] times the product of [1 - R_j^2] over
    the shallower interfaces [j < i], with [R] the raw coefficients. *)
Definition reflectivity_with_transmission (R : ndarray) (i : nat)
  : option npfloat :=
  match nth_error R i with
  | Some Ri =>
      Some (fold_left (fun acc Rj => (acc * (Float.one - Float.sq Rj))%fl)
                      (firstn i R) Ri)
  | None => None
  end.

(** The coefficients [(z1 - z0) / (z0 + z1)] of consecutive real
    impedances, in the order the code computes them. *)
Fixpoint contrasts (zs : list R) : list R :=
  match zs with
  | z0 :: ((z1 :: _) as zs') => ((z1 + - z0) / (z0 + z1))%R :: contrasts zs'
  | _ => []
  end.

Definition fresh (n : nat) (r : ref) : Prop := n <= r.
Definition fresh2 (n : nat) (p : ref * ref) : Prop :=
  n <= fst p /\ n <= snd p.
Definition any {A} (_ : A) : Prop := True.

(** * Properties *)

(** ** The store *)

Lemma nth_error_snoc_new {A} (h : list A) (a : A) :
  nth_error (h ++ [a]) (length h) = Some a.
Proof.
  rewrite nth_error_app2 by lia. now rewrite Nat.sub_diag.
Qed.

Lemma nth_error_snoc_old {A} (h : list A) (a x : A) (r : nat) :
  nth_error h r = Some x -> nth_error (h ++ [a]) r = Some x.
Proof.
  intros H. rewrite nth_error_app1; auto.
  apply nth_error_Some. congruence.
Qed.

Lemma length_list_set {A} (l : list A) i x :
  length (list_set l i x) = length l.
Proof.
  revert i; induction l as [|y l IH]; intros [|i]; simpl; auto.
Qed.

Lemma firstn_list_set {A} (l : list A) n i x :
  n <= i -> firstn n (list_set l i x) = firstn n l.
Proof.
  revert n i; induction l as [|y l IH]; intros [|n] [|i] H; simpl; auto; try lia.
  f_equal. apply IH. lia.
Qed.

Lemma nth_error_list_set_eq {A} (l : list A) i x :
  i < length l -> nth_error (list_set l i x) i = Some x.
Proof.
  revert i; induction l as [|y l IH]; intros [|i] H; simpl in *; try lia; auto.
  apply IH. lia.
Qed.

Lemma list_set_same {A} (l : list A) i x :
  nth_error l i = Some x -> list_set l i x = l.
Proof.
  revert i; induction l as [|y l IH]; intros [|i] H; simpl in *; try congruence.
  f_equal. auto.
Qed.

Lemma list_set_twice {A} (l : list A) i x y :
  list_set (list_set l i x) i y = list_set l i y.
Proof.
  revert i; induction l as [|z l IH]; intros [|i]; simpl; auto.
  f_equal. auto.
Qed.

Lemma firstn_snoc {A} (h : list A) n a :
  n <= length h -> firstn n (h ++ [a]) = firstn n h.
Proof.
  intros H. rewrite firstn_app.
  replace (n - length h)%nat with 0%nat by lia. simpl. apply app_nil_r.
Qed.

Lemma untouched_of_firstn (h h' : heap) :
  firstn (length h) h' = firstn (length h) h -> untouched h h'.
Proof.
  intros E r a Hr.
  assert (Hlt : r < length h) by (apply nth_error_Some; congruence).
  rewrite firstn_all in E.
  rewrite <- (firstn_skipn (length h) h'), E.
  rewrite nth_error_app1; auto.
Qed.

(** ** Framing rules *)

Section Framing.

Variable n : nat.

Lemma frames_ret {A} (a : A) (Q : A -> Prop) : Q a -> frames n (ret a) Q.
Proof. intros HQ h Hn; simpl; auto. Qed.

Lemma frames_raise {A} e (Q : A -> Prop) : frames n (raise e) Q.
Proof. intros h Hn; simpl; auto. Qed.

Lemma frames_lift {A} (r : result A) : frames n (lift r) any.
Proof. intros h Hn; simpl; repeat split; auto. destruct r; exact I. Qed.

Lemma frames_bind {A B} (m : M A) (k : A -> M B) Q Q' :
  frames n m Q -> (forall a, Q a -> frames n (k a) Q') ->
  frames n (bind m k) Q'.
Proof.
  intros Hm Hk h Hn. destruct (Hm h Hn) as (E & L & P).
  unfold bind. destruct (m h) as [[a|e] h1]; simpl in *.
  - destruct (Hk a P h1) as (E' & L' & P'); [lia|].
    repeat split; try congruence; lia.
  - auto.
Qed.

Lemma frames_alloc a : frames n (alloc a) (fresh n).
Proof.
  intros h Hn; unfold alloc, fresh; simpl. repeat split.
  - now apply firstn_snoc.
  - rewrite length_app; simpl; lia.
  - exact Hn.
Qed.

Lemma frames_load r : frames n (load r) any.
Proof.
  intros h Hn; unfold load, any. destruct (nth_error h r); simpl; auto.
Qed.

Lemma frames_store r a : n <= r -> frames n (store r a) any.
Proof.
  intros Hr h Hn; unfold store, any.
  destruct (Nat.ltb r (length h)); simpl; auto.
  rewrite length_list_set. repeat split; auto.
  now apply firstn_list_set.
Qed.

Lemma frames_for {A} (l : list A) body :
  (forall x, frames n (body x) any) -> frames n (for_ l body) any.
Proof.
  intros Hb. induction l as [|x l IH]; simpl.
  - apply frames_ret. exact I.
  - eapply frames_bind; [apply Hb|]. intros; apply IH.
Qed.

Lemma frames_assert b : frames n (assert b) any.
Proof.
  destruct b; simpl; [apply frames_ret; exact I | apply frames_raise].
Qed.

End Framing.

(** ** The program only adds objects *)

Section ProgramFrames.

Variable n : nat.

Lemma frames_alloc_r a : frames n (alloc_r a) (fresh n).
Proof.
  unfold alloc_r. eapply frames_bind; [apply frames_lift|].
  intros; apply frames_alloc.
Qed.

Lemma frames_np_array r : frames n (np_array r) (fresh n).
Proof.
  unfold np_array. eapply frames_bind; [apply frames_load|].
  intros; apply frames_alloc.
Qed.

Lemma frames_len r : frames n (len r) any.
Proof.
  unfold len. eapply frames_bind; [apply frames_load|].
  intros; now apply frames_ret.
Qed.

Lemma frames_len_arg f : frames n (len_arg f) any.
Proof. destruct f; simpl; [apply frames_raise | apply frames_len]. Qed.

Lemma frames_min_arg f : frames n (min_arg f) any.
Proof.
  destruct f; simpl; [now apply frames_ret|].
  eapply frames_bind; [apply frames_load|]. intros; apply frames_lift.
Qed.

Ltac frame_atom :=
  first [ apply frames_alloc | apply frames_alloc_r | apply frames_np_array
        | apply frames_load | apply frames_lift | apply frames_len
        | apply frames_len_arg | apply frames_min_arg | apply frames_assert
        | apply frames_raise
        | apply frames_store; unfold fresh, fresh2 in *; simpl in *; lia ].

Ltac frame_steps :=
  repeat (eapply frames_bind; [ solve [frame_atom] | intros ? ? ]).

Lemma frames_getImpedance rholog vlog :
  frames n (getImpedance rholog vlog) (fresh n).
Proof. unfold getImpedance. frame_steps. frame_atom. Qed.

Lemma frames_getReflectivity d rho v usingT :
  frames n (getReflectivity d rho v usingT) (fresh2 n).
Proof.
  unfold getReflectivity.
  eapply frames_bind; [apply frames_getImpedance | intros ? ?].
  frame_steps.
  eapply frames_bind with (Q := any).
  - destruct usingT; [|now apply frames_ret].
    apply frames_for. intros i. frame_steps. frame_atom.
  - intros _ _. apply frames_ret. split; assumption.
Qed.

Lemma frames_getTimeDepth d v dmax :
  frames n (getTimeDepth d v dmax) (fresh2 n).
Proof.
  unfold getTimeDepth. frame_steps. apply frames_ret. split; assumption.
Qed.

Lemma frames_getRicker f t : frames n (getRicker f t) (fresh n).
Proof.
  unfold getRicker. frame_steps.
  eapply frames_bind with (Q := fresh n).
  - destruct f; [frame_atom|]. frame_steps. frame_atom.
  - intros ? ?. frame_steps. frame_atom.
Qed.

Lemma frames_getOrmsby f t : frames n (getOrmsby f t) (fresh n).
Proof.
  unfold getOrmsby. frame_steps. destruct f; [frame_atom|].
  frame_steps. frame_atom.
Qed.

Lemma frames_getKlauder f t T : frames n (getKlauder f t T) (fresh n).
Proof.
  unfold getKlauder. frame_steps. destruct f; [frame_atom|].
  frame_steps. frame_atom.
Qed.

Lemma frames_lookup_wavelet key :
  frames n (lookup key wavelet_table)
         (fun g => forall f t, frames n (g f t) (fresh n)).
Proof.
  unfold wavelet_table; simpl.
  repeat match goal with
         | |- context [String.eqb ?a ?b] => destruct (String.eqb a b)
         end;
    try apply frames_raise; apply frames_ret; intros.
  - apply frames_getRicker.
  - apply frames_getOrmsby.
  - apply frames_getKlauder.
Qed.

Lemma frames_syntheticSeismogram d rho v wavf wavA usingT wavtyp dt dmax :
  frames n (syntheticSeismogram d rho v wavf wavA usingT wavtyp dt dmax) any.
Proof.
  unfold syntheticSeismogram. frame_steps.
  eapply frames_bind; [apply frames_getTimeDepth | intros [? t] [_ Ht]].
  eapply frames_bind; [apply frames_getReflectivity | intros [rs R] [Hrs _]].
  frame_steps.
  eapply frames_bind; [apply frames_lookup_wavelet | intros getwav Hg].
  eapply frames_bind; [apply Hg | intros ? ?].
  frame_steps.
  eapply frames_bind with (Q := any).
  - apply frames_for. intros i. frame_steps. frame_atom.
  - intros _ _. frame_steps. now apply frames_ret.
Qed.

End ProgramFrames.

(** ** Stepping a run *)

Lemma bind_load {A} (r : ref) (k : ndarray -> M A) (h : heap) a :
  nth_error h r = Some a -> bind (load r) k h = k a h.
Proof. intros H. unfold bind, load. now rewrite H. Qed.

Lemma bind_alloc {A} (a : ndarray) (k : ref -> M A) (h : heap) :
  bind (alloc a) k h = k (length h) (h ++ [a]).
Proof. reflexivity. Qed.

Lemma bind_lift_ok {A B} (a : A) (k : A -> M B) (h : heap) :
  bind (lift (Ok a)) k h = k a h.
Proof. reflexivity. Qed.

Lemma bind_lift_raise {A B} e (k : A -> M B) (h : heap) :
  bind (lift (Raise e)) k h = (Raise e, h).
Proof. reflexivity. Qed.

Lemma bind_ret {A B} (a : A) (k : A -> M B) (h : heap) :
  bind (ret a) k h = k a h.
Proof. reflexivity. Qed.

Lemma bind_assoc {A B C} (m : M A) (f : A -> M B) (g : B -> M C) h :
  bind (bind m f) g h = bind m (fun x => bind (f x) g) h.
Proof. unfold bind. destruct (m h) as [[a|e] h']; reflexivity. Qed.

Lemma bind_ok {A B} (m : M A) (k : A -> M B) h a h' :
  m h = (Ok a, h') -> bind m k h = k a h'.
Proof. intros E. unfold bind. now rewrite E. Qed.

Lemma bind_alloc_r_ok {A} a (k : ref -> M A) h :
  bind (alloc_r (Ok a)) k h = k (length h) (h ++ [a]).
Proof. reflexivity. Qed.

Lemma bind_alloc_r_raise {A} e (k : ref -> M A) h :
  bind (alloc_r (Raise e)) k h = (Raise e, h).
Proof. reflexivity. Qed.

Lemma bind_store {A} r a (k : unit -> M A) h :
  r < length h -> bind (store r a) k h = k tt (list_set h r a).
Proof.
  intros H. unfold bind, store.
  destruct (Nat.ltb_spec r (length h)); [reflexivity | lia].
Qed.

(** Looking an object up in a store grown by allocations. *)
Ltac heap_get :=
  repeat first [ apply nth_error_snoc_new | apply nth_error_snoc_old ];
  eassumption.

(** One step of a run: the head of the program is a load, an allocation or
    a returned value. *)
Ltac run_step :=
  first
    [ rewrite bind_alloc
    | rewrite bind_ret
    | rewrite bind_lift_ok
    | rewrite bind_alloc_r_ok
    | erewrite bind_load by heap_get
    | rewrite bind_assoc ].

Ltac run := repeat run_step.

(** The same on a store that is written out: objects are looked up by
    computation. *)
Ltac crun_step :=
  first
    [ rewrite bind_assoc
    | rewrite bind_ret
    | rewrite bind_lift_ok
    | rewrite bind_alloc_r_ok; cbn [length app]
    | rewrite bind_alloc; cbn [length app]
    | erewrite bind_load by (cbn [nth_error]; reflexivity) ].

Ltac crun := repeat crun_step.

Lemma getImpedance_run h rholog vlog rv vv :
  nth_error h rholog = Some rv -> nth_error h vlog = Some vv ->
  getImpedance rholog vlog h =
    match Np.binop Float.mul rv vv with
    | Ok z => (Ok (2 + length h), h ++ [rv; vv; z])
    | Raise e => (Raise e, h ++ [rv; vv])
    end.
Proof.
  intros Hr Hv. unfold getImpedance, np_array. run.
  destruct (Np.binop Float.mul rv vv) as [z|e].
  - unfold alloc_r. run. unfold alloc.
    repeat rewrite length_app. simpl length.
    repeat rewrite <- app_assoc. simpl. f_equal. f_equal. lia.
  - unfold alloc_r, bind, lift. now rewrite <- app_assoc.
Qed.

(** ** Arrays of finite values *)

Section FiniteArrays.

Local Open Scope R_scope.

Lemma length_zip_with {A B C} (f : A -> B -> C) a b :
  length a = length b -> length (Np.zip_with f a b) = length a.
Proof.
  revert b; induction a as [|x a IH]; intros [|y b] H; simpl in *;
    try discriminate; auto.
Qed.

Lemma nth_error_zip_with {A B C} (f : A -> B -> C) a b i x y :
  nth_error a i = Some x -> nth_error b i = Some y ->
  nth_error (Np.zip_with f a b) i = Some (f x y).
Proof.
  revert b i; induction a as [|x' a IH]; intros [|y' b] [|i] Ha Hb;
    simpl in *; try discriminate; auto.
  congruence.
Qed.

Lemma binop_same_length {A B C} (f : A -> B -> C) a b :
  length a = length b -> Np.binop f a b = Ok (Np.zip_with f a b).
Proof.
  intros H. unfold Np.binop. now rewrite H, Nat.eqb_refl.
Qed.

Lemma binop_raises {A B C} (f : A -> B -> C) a b :
  length a <> length b -> length a <> 1%nat -> length b <> 1%nat ->
  Np.binop f a b = Raise ValueError.
Proof.
  intros H Ha Hb. unfold Np.binop.
  destruct (Nat.eqb_spec (length a) (length b)); [contradiction|].
  destruct a as [|x [|x' a]], b as [|y [|y' b]]; simpl in *;
    try reflexivity; congruence.
Qed.

Lemma binop_stretch_left {A B C} (f : A -> B -> C) x b :
  length b <> 1%nat -> Np.binop f [x] b = Ok (map (fun y => f x y) b).
Proof.
  intros Hb. unfold Np.binop.
  destruct (Nat.eqb_spec (length [x]) (length b)) as [E|E];
    [simpl in E; congruence|].
  destruct b as [|y [|y' b]]; simpl in *; try reflexivity; congruence.
Qed.

Lemma binop_stretch_right {A B C} (f : A -> B -> C) a y :
  length a <> 1%nat -> Np.binop f a [y] = Ok (map (fun x => f x y) a).
Proof.
  intros Ha. unfold Np.binop.
  destruct (Nat.eqb_spec (length a) (length [y])) as [E|E];
    [simpl in E; congruence|].
  destruct a as [|x [|x' a]]; simpl in *; try reflexivity; congruence.
Qed.

Lemma length_insert x a : length (Np.insert x a) = S (length a).
Proof.
  induction a as [|y a IH]; simpl; auto.
  destruct (Float.sort_leb x y); simpl; auto.
Qed.

Lemma length_sort a : length (Np.sort a) = length a.
Proof.
  induction a as [|x a IH]; simpl; auto.
  now rewrite length_insert, IH.
Qed.

Lemma length_diff a : length (Np.diff a) = Nat.pred (length a).
Proof.
  induction a as [|x [|y a] IH]; simpl in *; auto.
Qed.

Lemma length_cumsum_from acc a :
  length (Np.cumsum_from acc a) = length a.
Proof.
  revert acc; induction a as [|x a IH]; intros acc; simpl; auto.
Qed.

Lemma length_cumsum a : length (Np.cumsum a) = length a.
Proof.
  destruct a; simpl; auto. now rewrite length_cumsum_from.
Qed.

Lemma leb_fin_true x y : x <= y -> Float.leb (Fin x) (Fin y) = true.
Proof. intros H. simpl. destruct (Rle_dec x y); [reflexivity|contradiction]. Qed.

Lemma leb_fin_false x y : y < x -> Float.leb (Fin x) (Fin y) = false.
Proof. intros H. simpl. destruct (Rle_dec x y); [lra|reflexivity]. Qed.

Lemma ltb_fin_true x y : x < y -> Float.ltb (Fin x) (Fin y) = true.
Proof. intros H. simpl. destruct (Rlt_dec x y); [reflexivity|contradiction]. Qed.

Lemma ltb_fin_false x y : y <= x -> Float.ltb (Fin x) (Fin y) = false.
Proof. intros H. simpl. destruct (Rlt_dec x y); [lra|reflexivity]. Qed.

Lemma div_fin x y : y <> 0 -> Float.div (Fin x) (Fin y) = Fin (x / y).
Proof. intros H. simpl. destruct (Req_dec_T y 0); [contradiction|reflexivity]. Qed.

Lemma div_zero_zero : Float.div (Fin 0) (Fin 0) = NaN.
Proof.
  simpl. destruct (Req_dec_T 0 0) as [_|N]; [|now elim N].
  unfold Float.sgn.
  destruct (Rlt_dec 0 0) as [H|_]; [lra|]. reflexivity.
Qed.

(** Sorting real numbers *)

Lemma insert_fin x ss :
  LocallySorted Rle ss ->
  exists ss', Np.insert (Fin x) (map Fin ss) = map Fin ss' /\
              LocallySorted Rle ss' /\
              (forall y, In y ss' <-> y = x \/ In y ss) /\
              (forall d, hd d ss' = x \/ hd d ss' = hd d ss).
Proof.
  induction ss as [|y ss IH]; intros Hs.
  - exists [x]; simpl.
    split; [reflexivity|]. split; [constructor|].
    split; [intro; intuition congruence | intro; now left].
  - simpl. destruct (Rle_dec x y) as [L|L].
    + exists (x :: y :: ss); simpl.
      split; [reflexivity|]. split; [now constructor|].
      split; [intro; intuition congruence | intro; now left].
    + assert (Hs' : LocallySorted Rle ss) by (inversion Hs; auto; constructor).
      destruct (IH Hs') as (ss' & E & S' & I' & B').
      exists (y :: ss'); simpl; rewrite E.
      split; [reflexivity|]. split; [|split; [split|intro; now right]].
      * destruct ss' as [|w ss'']; constructor; auto.
        destruct (B' w) as [Hw|Hw]; simpl in Hw; [lra|].
        destruct ss as [|u ss]; simpl in Hw.
        -- destruct (proj1 (I' w) (or_introl eq_refl)) as [->|[]]. lra.
        -- subst. inversion Hs; auto.
      * intros [<-|H]; [tauto|]. apply I' in H. tauto.
      * intros [->|[<-|H]]; [right|left|right]; auto; apply I'; tauto.
Qed.

Lemma sort_fin ds :
  exists ss, Np.sort (map Fin ds) = map Fin ss /\
             LocallySorted Rle ss /\
             (forall y, In y ss <-> In y ds).
Proof.
  induction ds as [|x ds IH]; simpl.
  - exists []; repeat split; try constructor; auto.
  - destruct IH as (ss & E & S' & I').
    destruct (insert_fin x ss S') as (ss' & E' & S'' & I'' & _).
    exists ss'. rewrite E, E'. repeat split; auto.
    + intros H. apply I'' in H. destruct H; [now left|right; now apply I'].
    + intros [<-|H]; apply I''; [now left|right; now apply I'].
Qed.

Lemma sorted_snoc ss m :
  LocallySorted Rle ss -> (forall y, In y ss -> y <= m) ->
  LocallySorted Rle (ss ++ [m]).
Proof.
  induction 1 as [|a|a b l Hl IH Hab]; intros Hm; simpl.
  - constructor.
  - constructor; [constructor|]. apply Hm. now left.
  - constructor; auto. apply IH. intros y Hy. apply Hm. now right.
Qed.

Lemma diff_sorted rs :
  LocallySorted Rle rs ->
  exists ds, Np.diff (map Fin rs) = map Fin ds /\ Forall (Rle 0) ds.
Proof.
  induction 1 as [|a|a b l Hl IH Hab].
  - exists []. split; [reflexivity|constructor].
  - exists []. split; [reflexivity|constructor].
  - destruct IH as (ds & E & F).
    exists ((b + - a) :: ds). split.
    + change (map Fin (a :: b :: l)) with (Fin a :: map Fin (b :: l)).
      simpl in E |- *. now rewrite E.
    + constructor; [lra|assumption].
Qed.

Lemma twt_finite ds vs :
  Forall (Rle 0) ds -> Forall (Rlt 0) vs ->
  exists ts,
    Np.zip_with Float.div (map (Float.mul Float.two) (map Fin ds))
                (map Fin vs) = map Fin ts /\
    Forall (Rle 0) ts.
Proof.
  intros Hd; revert vs; induction Hd as [|x ds Hx Hd IH]; intros vs Hv.
  - exists []. split; [reflexivity|constructor].
  - destruct Hv as [|v vs Hv Hvs].
    + exists []. split; [reflexivity|constructor].
    + destruct (IH vs Hvs) as (ts & E & F).
      exists (2 * x / v :: ts). split.
      * simpl map. simpl Np.zip_with. rewrite E.
        f_equal. unfold Float.two. simpl Float.mul.
        apply div_fin. lra.
      * constructor; [|assumption].
        apply Rmult_le_pos; [lra|].
        apply Rlt_le, Rinv_0_lt_compat, Hv.
Qed.

Lemma cumsum_from_sorted c ts :
  Forall (Rle 0) ts ->
  exists cs, Np.cumsum_from (Fin c) (map Fin ts) = map Fin cs /\
             LocallySorted Rle (c :: cs).
Proof.
  intros Ht; revert c; induction Ht as [|x ts Hx Ht IH]; intros c.
  - exists []. split; [reflexivity|constructor].
  - destruct (IH (c + x)) as (cs & E & S').
    exists (c + x :: cs). split.
    + simpl. now rewrite E.
    + constructor; [assumption|lra].
Qed.

Lemma nondecreasing_sorted rs :
  LocallySorted Rle rs -> nondecreasing (map Fin rs).
Proof.
  induction 1 as [|a|a b l Hl IH Hab]; intros i x y Hx Hy.
  - destruct i; discriminate.
  - destruct i; simpl in Hy; [discriminate|destruct i; discriminate].
  - destruct i as [|i].
    + simpl in Hx, Hy. inversion Hx; inversion Hy; subst.
      now apply leb_fin_true.
    + apply (IH i); assumption.
Qed.

End FiniteArrays.

(** ** Evaluating on concrete arrays *)

(** Evaluation of array expressions, leaving every comparison of reals
    (in a division, an order test) to be settled by arithmetic. *)
Ltac rsolve := unfold Rabs; repeat destruct Rcase_abs; lra.

Ltac fdecide :=
  repeat first
    [ rewrite leb_fin_true by rsolve | rewrite leb_fin_false by rsolve
    | rewrite ltb_fin_true by rsolve | rewrite ltb_fin_false by rsolve
    | rewrite div_fin by rsolve ].

Ltac np_eval :=
  cbn [Np.zip_with Np.binop map tl removelast length Nat.eqb app
       Float.add Float.sub Float.neg Float.mul Float.sq Float.one Float.two
       Float.zero Float.abs Float.is_nan Float.sort_leb Float.geb
       attenuate_all attenuate_below range seq Np.getitem
       nth_error Np.setslice_from Np.from firstn skipn Nat.sub Nat.add
       fst snd Np.diff Np.cumsum Np.cumsum_from Np.interior Np.from1
       Np.upto_last Np.sort Np.insert Np.amin Np.amax Np.minimum Np.maximum
       Np.argmin Np.argmin_from Np.before fold_left INR
       main_d main_rho main_v].

Ltac np_run := repeat (progress (np_eval; fdecide)).

(** Equality of arrays of finite values, entry by entry. *)
Ltac fin_eq :=
  repeat match goal with
         | |- Some _ = Some _ => apply f_equal
         | |- _ :: _ = _ :: _ => apply f_equal2
         | |- Fin _ = Fin _ => apply f_equal; field
         | |- [] = [] => reflexivity
         | |- @eq npfloat _ _ => reflexivity
         end.

(** ** Time-depth conversion *)

Lemma getTimeDepth_run h d v dmax dv vv :
  nth_error h d = Some dv -> nth_error h v = Some vv ->
  getTimeDepth d v dmax h =
    let ds := Np.sort dv ++ [dmax] in
    match Np.binop Float.div (map (Float.mul Float.two) (Np.diff ds)) vv with
    | Ok tw =>
        (Ok (1 + length h, 4 + length h),
         h ++ [Np.sort dv; ds; tw; Float.zero :: tw;
               Np.cumsum (Float.zero :: tw)])
    | Raise e => (Raise e, h ++ [Np.sort dv; ds])
    end.
Proof.
  intros Hd Hv. unfold getTimeDepth. run. cbv zeta.
  destruct (Np.binop Float.div _ vv) as [tw|e].
  - run. unfold ret. repeat rewrite length_app. simpl length.
    repeat rewrite <- app_assoc. simpl. repeat f_equal; lia.
  - rewrite bind_alloc_r_raise. now rewrite <- app_assoc.
Qed.

Lemma getTimeDepth_same_length h d v dmax dv vv :
  nth_error h d = Some dv -> nth_error h v = Some vv ->
  length vv = length dv ->
  getTimeDepth d v dmax h =
    let ds := Np.sort dv ++ [dmax] in
    let tw := Np.zip_with Float.div
                (map (Float.mul Float.two) (Np.diff ds)) vv in
    (Ok (1 + length h, 4 + length h),
     h ++ [Np.sort dv; ds; tw; Float.zero :: tw;
           Np.cumsum (Float.zero :: tw)]).
Proof.
  intros Hd Hv Hl. rewrite (getTimeDepth_run h d v dmax dv vv Hd Hv).
  cbv zeta. rewrite binop_same_length; [reflexivity|].
  rewrite length_map, length_diff, length_app, length_sort. simpl. lia.
Qed.

Lemma nth_error_app_at {A} (h ext : list A) k :
  nth_error (h ++ ext) (k + length h) = nth_error ext k.
Proof.
  rewrite nth_error_app2 by lia. f_equal. lia.
Qed.

(** C5 (as the code has it): [getTimeDepth] has no guard on [dmax].  For
    every depth array, every velocity array of the same length and every
    [dmax], also one that does not exceed the deepest layer, it returns:
    the depth output is the sorted depths followed by [dmax] and the time
    output has one entry more than there are layers. *)
Theorem getTimeDepth_returns_for_any_dmax h d v dmax dv vv :
  nth_error h d = Some dv -> nth_error h v = Some vv ->
  length vv = length dv ->
  exists rd rt h' tv,
    getTimeDepth d v dmax h = (Ok (rd, rt), h') /\
    nth_error h' rd = Some (Np.sort dv ++ [dmax]) /\
    nth_error h' rt = Some tv /\
    length tv = S (length dv).
Proof.
  intros Hd Hv Hl.
  rewrite (getTimeDepth_same_length h d v dmax dv vv Hd Hv Hl). cbv zeta.
  do 4 eexists. split; [reflexivity|].
  split; [rewrite (nth_error_app_at h _ 1); reflexivity|].
  split; [rewrite (nth_error_app_at h _ 4); reflexivity|].
  rewrite length_cumsum. simpl. f_equal.
  rewrite length_zip_with; rewrite length_map, length_diff, length_app,
    length_sort; simpl; lia.
Qed.

Section TimeDepthExamples.

Local Open Scope R_scope.

Lemma getTimeDepth_returns_for_any_dmax_witness :
  exists rd rt h' tv,
    getTimeDepth 0%nat 2%nat (Fin 100) main_heap = (Ok (rd, rt), h') /\
    nth_error h' rd = Some (Np.sort main_d ++ [Fin 100]) /\
    nth_error h' rt = Some tv /\
    length tv = S (length main_d).
Proof.
  apply (getTimeDepth_returns_for_any_dmax main_heap 0%nat 2%nat (Fin 100)
           main_d main_v); reflexivity.
Defined.

(** C5 (as stated) fails: with [dmax = 100], the depth of the deepest
    layer top, [getTimeDepth] returns a result. *)
Lemma getTimeDepth_dmax_at_deepest_layer_returns :
  In 100 [0; 50; 100] /\ 100 <= 100 /\
  exists out h', getTimeDepth 0%nat 2%nat (Fin 100) main_heap = (Ok out, h').
Proof.
  split; [simpl; tauto|]. split; [lra|].
  rewrite (getTimeDepth_same_length main_heap 0%nat 2%nat (Fin 100) main_d main_v);
    try reflexivity.
  cbv zeta. eauto.
Qed.

(** C8: for a depth array of [N] real numbers, [N] strictly positive
    velocities and [dmax] above every depth, the time sequence that
    [getTimeDepth] returns has [N + 1] entries, starts at 0 and is
    non-decreasing. *)
Theorem getTimeDepth_times_nondecreasing h d v (ds vs : list R) (m : R) :
  nth_error h d = Some (map Fin ds) ->
  nth_error h v = Some (map Fin vs) ->
  length vs = length ds ->
  Forall (Rlt 0) vs ->
  Forall (fun x => x < m) ds ->
  exists rd rt h' tv,
    getTimeDepth d v (Fin m) h = (Ok (rd, rt), h') /\
    nth_error h' rt = Some tv /\
    length tv = S (length ds) /\
    nth_error tv 0 = Some (Fin 0) /\
    nondecreasing tv.
Proof.
  intros Hd Hv Hl Hpos Hmax.
  rewrite (getTimeDepth_same_length h d v (Fin m) _ _ Hd Hv)
    by (now rewrite !length_map).
  cbv zeta.
  destruct (sort_fin ds) as (ss & Es & Ss & Is).
  assert (Hss : LocallySorted Rle (ss ++ [m])).
  { apply sorted_snoc; auto. intros y Hy. apply Is in Hy.
    rewrite Forall_forall in Hmax. apply Rlt_le. now apply Hmax. }
  destruct (diff_sorted _ Hss) as (dd & Ed & Fd).
  destruct (twt_finite dd vs Fd Hpos) as (ts & Et & Ft).
  destruct (cumsum_from_sorted 0 ts Ft) as (cs & Ec & Sc).
  assert (Etw : Np.zip_with Float.div
            (map (Float.mul Float.two)
               (Np.diff (Np.sort (map Fin ds) ++ [Fin m])))
            (map Fin vs) = map Fin ts).
  { rewrite Es. change [Fin m] with (map Fin [m]).
    rewrite <- map_app, Ed. exact Et. }
  rewrite Etw.
  assert (Ecs : Np.cumsum (Float.zero :: map Fin ts) = map Fin (0 :: cs)).
  { simpl. unfold Float.zero. now rewrite Ec. }
  rewrite Ecs.
  do 4 eexists. split; [reflexivity|].
  split; [rewrite (nth_error_app_at h _ 4); reflexivity|].
  split; [|split; [reflexivity|now apply nondecreasing_sorted]].
  rewrite <- Ecs, length_cumsum. simpl. rewrite <- Etw.
  rewrite length_zip_with; rewrite !length_map, length_diff, length_app,
    length_sort, length_map; simpl; lia.
Qed.

Lemma getTimeDepth_times_nondecreasing_witness :
  exists rd rt h' tv,
    getTimeDepth 0%nat 2%nat (Fin 200) main_heap = (Ok (rd, rt), h') /\
    nth_error h' rt = Some tv /\
    length tv = S (length [0; 50; 100]) /\
    nth_error tv 0 = Some (Fin 0) /\
    nondecreasing tv.
Proof.
  apply (getTimeDepth_times_nondecreasing main_heap 0%nat 2%nat
           [0; 50; 100] [500; 1000; 1500] 200);
    try reflexivity; repeat constructor; lra.
Defined.

End TimeDepthExamples.

(** ** Impedance *)

(** C7 (as the code has it): [getImpedance] draws its only error from
    NumPy's broadcasting.  With equal lengths it returns the elementwise
    product; with different lengths it raises when neither length is 1,
    and when one array has a single entry that entry multiplies every
    entry of the other array. *)
Theorem getImpedance_broadcasts h rholog vlog rv vv :
  nth_error h rholog = Some rv -> nth_error h vlog = Some vv ->
  (length rv = length vv ->
     exists z h' zv,
       getImpedance rholog vlog h = (Ok z, h') /\
       nth_error h' z = Some zv /\ length zv = length rv /\
       forall i x y, nth_error rv i = Some x -> nth_error vv i = Some y ->
                     nth_error zv i = Some (x * y)%fl) /\
  (length rv <> length vv -> length rv <> 1 -> length vv <> 1 ->
     exists h', getImpedance rholog vlog h = (Raise ValueError, h')) /\
  (forall x, rv = [x] -> length vv <> 1 ->
     exists z h',
       getImpedance rholog vlog h = (Ok z, h') /\
       nth_error h' z = Some (map (fun y => (x * y)%fl) vv)) /\
  (forall y, vv = [y] -> length rv <> 1 ->
     exists z h',
       getImpedance rholog vlog h = (Ok z, h') /\
       nth_error h' z = Some (map (fun x => (x * y)%fl) rv)).
Proof.
  intros Hr Hv.
  rewrite (getImpedance_run h rholog vlog rv vv Hr Hv).
  repeat split.
  - intros Hl. rewrite binop_same_length by assumption.
    do 3 eexists. split; [reflexivity|].
    split; [rewrite (nth_error_app_at h _ 2); reflexivity|].
    split; [now apply length_zip_with|].
    intros i x y. apply nth_error_zip_with.
  - intros Hl H1 H2. rewrite binop_raises by assumption. eauto.
  - intros x -> Hl. rewrite binop_stretch_left by assumption.
    do 2 eexists. split; [reflexivity|].
    rewrite (nth_error_app_at h _ 2); reflexivity.
  - intros y -> Hl. rewrite binop_stretch_right by assumption.
    do 2 eexists. split; [reflexivity|].
    rewrite (nth_error_app_at h _ 2); reflexivity.
Qed.

Section ImpedanceExamples.

Local Open Scope R_scope.

Lemma getImpedance_broadcasts_witness :
  exists z h' zv,
    getImpedance 1%nat 2%nat main_heap = (Ok z, h') /\
    nth_error h' z = Some zv /\ length zv = length main_rho /\
    forall i x y, nth_error main_rho i = Some x ->
                  nth_error main_v i = Some y ->
                  nth_error zv i = Some (x * y)%fl.
Proof.
  apply (proj1 (getImpedance_broadcasts main_heap 1%nat 2%nat
                  main_rho main_v eq_refl eq_refl)).
  reflexivity.
Defined.

(** C7 (as stated) fails: one density against two velocities is a pair of
    different lengths, and [getImpedance] returns their products. *)
Lemma getImpedance_length_mismatch_returns :
  length [Fin 2000] <> length [Fin 500; Fin 1000] /\
  exists z h',
    getImpedance 0%nat 1%nat [[Fin 2000]; [Fin 500; Fin 1000]] = (Ok z, h') /\
    nth_error h' z = Some [Fin (2000 * 500); Fin (2000 * 1000)].
Proof.
  split; [simpl; lia|].
  rewrite (getImpedance_run _ 0%nat 1%nat [Fin 2000] [Fin 500; Fin 1000]);
    try reflexivity.
  do 2 eexists. split; reflexivity.
Qed.

End ImpedanceExamples.

(** ** Frame *)

Lemma frames_untouched {A} (m : M A) (Q : A -> Prop) h :
  frames (length h) m Q -> untouched h (snd (m h)).
Proof.
  intros F. apply untouched_of_firstn. apply (F h). lia.
Qed.

(** C10: no operation of the pipeline modifies an array of its caller.
    Whatever the arguments and whether the call returns or raises, every
    object that was in the store before the call (the depth, density,
    velocity, frequency and time-axis arguments among them) has the same
    contents after it; the in-place loop of [getReflectivity] writes to an
    array the call itself created. *)
Theorem pipeline_leaves_inputs_untouched (h : heap) :
  (forall rholog vlog, untouched h (snd (getImpedance rholog vlog h))) /\
  (forall d rho v usingT,
     untouched h (snd (getReflectivity d rho v usingT h))) /\
  (forall d v dmax, untouched h (snd (getTimeDepth d v dmax h))) /\
  (forall f t, untouched h (snd (getRicker f t h))) /\
  (forall f t, untouched h (snd (getOrmsby f t h))) /\
  (forall f t T, untouched h (snd (getKlauder f t T h))) /\
  (forall d rho v wavf wavA usingT wavtyp dt dmax,
     untouched h
       (snd (syntheticSeismogram d rho v wavf wavA usingT wavtyp dt dmax h))).
Proof.
  repeat split; intros.
  - eapply frames_untouched, frames_getImpedance.
  - eapply frames_untouched, frames_getReflectivity.
  - eapply frames_untouched, frames_getTimeDepth.
  - eapply frames_untouched, frames_getRicker.
  - eapply frames_untouched, frames_getOrmsby.
  - eapply frames_untouched, frames_getKlauder.
  - eapply frames_untouched, frames_syntheticSeismogram.
Qed.

(** ** Reflectivity *)

Lemma for_attenuate (l : list nat) (r : ref) (h : heap) (rs : ndarray) :
  nth_error h r = Some rs ->
  for_ l (fun i =>
    rs <- load r ;;
    Rv <- load r ;;
    Ri <- lift (Np.getitem Rv i) ;;
    store r
      (Np.setslice_from (i + 1) rs
         (map (fun x => (x * (Float.one - Float.sq Ri))%fl)
              (Np.from (i + 1) rs)))) h
  = (fst (attenuate_all l rs), list_set h r (snd (attenuate_all l rs))).
Proof.
  revert h rs; induction l as [|i l IH]; intros h rs Hr.
  - simpl. unfold ret. now rewrite (list_set_same h r rs Hr).
  - assert (Hlt : r < length h) by (apply nth_error_Some; congruence).
    simpl for_. simpl attenuate_all. unfold attenuate_below.
    rewrite bind_assoc. erewrite bind_load by eassumption.
    rewrite bind_assoc. erewrite bind_load by eassumption.
    rewrite bind_assoc.
    destruct (Np.getitem rs i) as [Ri|e].
    + rewrite bind_lift_ok. rewrite bind_store by assumption.
      rewrite (IH _ _ (nth_error_list_set_eq h r _ Hlt)).
      now rewrite list_set_twice.
    + rewrite bind_lift_raise. simpl.
      now rewrite (list_set_same h r rs Hr).
Qed.

Lemma length_tl_removelast {A} (l : list A) :
  length (tl l) = length (removelast l).
Proof.
  destruct l as [|x l]; [reflexivity|].
  simpl tl. revert x; induction l as [|y l IH]; intros x; [reflexivity|].
  change (removelast (x :: y :: l)) with (x :: removelast (y :: l)).
  simpl length. f_equal. apply IH.
Qed.

Lemma getReflectivity_run h d rho v usingT rv vv Z :
  nth_error h rho = Some rv -> nth_error h v = Some vv ->
  Np.binop Float.mul rv vv = Ok Z ->
  getReflectivity d rho v usingT h =
    let dZ := Np.zip_with Float.sub (tl Z) (removelast Z) in
    let sZ := Np.zip_with Float.add (removelast Z) (tl Z) in
    let R := Np.zip_with Float.div dZ sZ in
    let run := if usingT then attenuate_all (range (length vv - 1)) R
               else (Ok tt, R) in
    (match fst run with
     | Ok _ => Ok (5 + length h, 5 + length h)
     | Raise e => Raise e
     end,
     h ++ [rv; vv; Z; dZ; sZ; snd run]).
Proof.
  intros Hr Hv HZ. unfold getReflectivity.
  rewrite (bind_ok _ _ h (2 + length h) (h ++ [rv; vv; Z])).
  2:{ rewrite (getImpedance_run h rho v rv vv Hr Hv). now rewrite HZ. }
  set (h1 := h ++ [rv; vv; Z]).
  assert (H1 : nth_error h1 (2 + length h) = Some Z)
    by (unfold h1; rewrite (nth_error_app_at h _ 2); reflexivity).
  assert (Hv1 : nth_error h1 v = Some vv).
  { unfold h1. rewrite nth_error_app1; auto.
    apply nth_error_Some; congruence. }
  erewrite bind_load by eassumption.
  unfold Np.from1, Np.upto_last.
  rewrite !binop_same_length
    by (rewrite ?length_tl_removelast; reflexivity).
  run. unfold len. run. cbv zeta.
  rewrite binop_same_length.
  2:{ rewrite !length_zip_with; rewrite ?length_tl_removelast; reflexivity. }
  run. unfold ndarray in *.
  set (dZ := Np.zip_with Float.sub (tl Z) (removelast Z)).
  set (sZ := Np.zip_with Float.add (removelast Z) (tl Z)).
  set (R := Np.zip_with Float.div dZ sZ).
  set (h2 := ((h1 ++ [dZ]) ++ [sZ]) ++ [R]).
  assert (Eh2 : h2 = h ++ [rv; vv; Z; dZ; sZ; R]).
  { unfold h2, h1. now rewrite <- !app_assoc. }
  assert (Er : length ((h1 ++ [dZ]) ++ [sZ]) = 5 + length h).
  { unfold h1. rewrite !length_app. simpl. lia. }
  rewrite Er.
  assert (HR : nth_error h2 (5 + length h) = Some R)
    by (rewrite Eh2, (nth_error_app_at h _ 5); reflexivity).
  assert (Hset : forall x, list_set h2 (5 + length h) x
                           = h ++ [rv; vv; Z; dZ; sZ; x]).
  { intros x. rewrite Eh2. clear.
    induction h as [|a h IH]; simpl; [reflexivity|].
    f_equal. exact IH. }
  destruct usingT.
  - unfold bind at 1. rewrite (for_attenuate _ _ h2 R HR).
    rewrite Hset.
    destruct (attenuate_all (range (length vv - 1)) R) as [[[]|e] rs'];
      reflexivity.
  - unfold bind, ret. simpl. now rewrite Eh2.
Qed.

Lemma bind_inv {A B} (m : M A) (k : A -> M B) h x h' :
  bind m k h = (Ok x, h') ->
  exists a h1, m h = (Ok a, h1) /\ k a h1 = (Ok x, h').
Proof.
  unfold bind. destruct (m h) as [[a|e] h1]; intros H.
  - eauto.
  - discriminate.
Qed.

(** X2: whenever [getReflectivity] returns, for either value of [usingT],
    its two outputs are one and the same array object. *)
Lemma getReflectivity_outputs_alias d rho v usingT h rseries R h' :
  getReflectivity d rho v usingT h = (Ok (rseries, R), h') -> rseries = R.
Proof.
  unfold getReflectivity. intros H.
  repeat (apply bind_inv in H; destruct H as (? & ? & _ & H)).
  unfold ret in H. congruence.
Qed.

Section ReflectivityExamples.

Local Open Scope R_scope.

(** C2 (the code departs from it): on the three-layer model of
    [__main__], with [usingT = True], [getReflectivity] returns one array
    object twice.  Its second entry is the attenuated coefficient
    [29/121 * (1 - (13/33)^2) = 26680/131769], where the raw reflection
    coefficient of that interface is [29/121]. *)
Theorem getReflectivity_raw_output_is_attenuated :
  exists r h',
    getReflectivity 0%nat 1%nat 2%nat true main_heap = (Ok (r, r), h') /\
    nth_error h' r = Some [Fin (13 / 33); Fin (26680 / 131769)] /\
    reflection_coefficients (Np.zip_with Float.mul main_rho main_v)
      = [Fin (13 / 33); Fin (29 / 121)] /\
    26680 / 131769 <> 29 / 121.
Proof.
  rewrite (getReflectivity_run main_heap 0%nat 1%nat 2%nat true main_rho main_v
             (Np.zip_with Float.mul main_rho main_v)); try reflexivity.
  cbv zeta. unfold reflection_coefficients, main_rho, main_v, main_heap.
  np_eval. rewrite !div_fin by lra. np_eval.
  do 2 eexists. split; [reflexivity|]. np_eval.
  split; [fin_eq|]. split; [fin_eq|lra].
Qed.

(** C3 (the code departs from it): on a four-layer model, with
    [usingT = True], the third effective coefficient that
    [getReflectivity] computes is
    [11/61 * (1 - (13/33)^2) * (1 - (29/121 * (1 - (13/33)^2))^2)]:
    the factor for the second interface is taken from its already
    attenuated coefficient.  The product over the raw coefficients is
    [11/61 * (1 - (13/33)^2) * (1 - (29/121)^2)], a different number. *)
Theorem getReflectivity_attenuates_by_attenuated_coefficient :
  let a := 13 / 33 in
  let b := 29 / 121 in
  let c := 11 / 61 in
  let b' := b * (1 - a * a) in
  exists r h' eff,
    getReflectivity 0%nat 1%nat 2%nat true four_heap = (Ok (r, r), h') /\
    nth_error h' r = Some eff /\
    nth_error eff 2 = Some (Fin (c * (1 - a * a) * (1 - b' * b'))) /\
    reflection_coefficients (Np.zip_with Float.mul four_rho four_v)
      = [Fin a; Fin b; Fin c] /\
    reflectivity_with_transmission [Fin a; Fin b; Fin c] 2
      = Some (Fin (c * (1 - a * a) * (1 - b * b))) /\
    c * (1 - a * a) * (1 - b' * b') <> c * (1 - a * a) * (1 - b * b).
Proof.
  intros a b c b'.
  rewrite (getReflectivity_run four_heap 0%nat 1%nat 2%nat true four_rho four_v
             (Np.zip_with Float.mul four_rho four_v)); try reflexivity.
  cbv zeta.
  unfold reflection_coefficients, reflectivity_with_transmission,
    four_rho, four_v, four_heap.
  np_eval. rewrite !div_fin by lra. np_eval.
  do 3 eexists. split; [reflexivity|]. np_eval.
  split; [reflexivity|]. np_eval. cbn [fold_left].
  np_eval. subst a b c b'.
  split; [fin_eq|]. split; [fin_eq|]. split; [fin_eq|lra].
Qed.

End ReflectivityExamples.

(** ** Wavelets *)

Lemma binop_singleton_left {A B C} (f : A -> B -> C) x b :
  Np.binop f [x] b = Ok (map (f x) b).
Proof.
  destruct b as [|y [|y' b]]; reflexivity.
Qed.

Lemma getRicker_scalar_run h x t tv :
  nth_error h t = Some tv ->
  getRicker (Scalar x) t h =
    let pift := map (Float.mul (pi * x)%fl) tv in
    (Ok (1 + length h), h ++ [pift; map ricker_sample pift]).
Proof.
  intros Ht. unfold getRicker. run. cbv zeta. unfold alloc.
  rewrite length_app, <- app_assoc. simpl. repeat f_equal. lia.
Qed.

Lemma getRicker_array_run h r t fv tv :
  nth_error h r = Some fv -> nth_error h t = Some tv ->
  getRicker (Arr r) t h =
    match Np.binop Float.mul (map (Float.mul pi) fv) tv with
    | Ok pift => (Ok (1 + length h), h ++ [pift; map ricker_sample pift])
    | Raise e => (Raise e, h)
    end.
Proof.
  intros Hr Ht. unfold getRicker. run.
  destruct (Np.binop Float.mul _ tv) as [pift|e].
  - run. unfold alloc.
    rewrite length_app, <- app_assoc. simpl. repeat f_equal. lia.
  - now rewrite bind_alloc_r_raise.
Qed.

(** C6 (as the code has it): [getRicker] checks no frequency count, its
    assertion being commented out.  Given more than one frequency it
    returns a wavelet when there are as many frequencies as time samples
    (sample [i] uses frequency [i]) or a single time sample, and raises
    NumPy's broadcasting error when neither is so. *)
Theorem getRicker_many_frequencies h r t fv tv :
  nth_error h r = Some fv -> nth_error h t = Some tv ->
  1 < length fv ->
  (length fv = length tv ->
     exists w h',
       getRicker (Arr r) t h = (Ok w, h') /\
       nth_error h' w =
         Some (map ricker_sample
                 (Np.zip_with (fun f x => (pi * f * x)%fl) fv tv))) /\
  (forall x, tv = [x] ->
     exists w h',
       getRicker (Arr r) t h = (Ok w, h') /\
       nth_error h' w =
         Some (map ricker_sample (map (fun f => (pi * f * x)%fl) fv))) /\
  (length fv <> length tv -> length tv <> 1 ->
     exists h', getRicker (Arr r) t h = (Raise ValueError, h')).
Proof.
  intros Hr Ht Hf.
  rewrite (getRicker_array_run h r t fv tv Hr Ht).
  repeat split.
  - intros Hl. rewrite binop_same_length by (now rewrite length_map).
    do 2 eexists. split; [reflexivity|].
    rewrite (nth_error_app_at h _ 1). simpl. do 2 f_equal.
    clear. revert tv; induction fv as [|f fv IH]; intros [|x tv]; simpl;
      try reflexivity.
    now rewrite IH.
  - intros x ->. rewrite binop_stretch_right by (rewrite length_map; lia).
    do 2 eexists. split; [reflexivity|].
    rewrite (nth_error_app_at h _ 1). simpl. now rewrite (map_map (Float.mul pi)).
  - intros Hl Ht1. rewrite binop_raises; rewrite ?length_map; eauto; lia.
Qed.

Lemma getKlauder_run h r t a b tv T :
  nth_error h r = Some [a; b] -> nth_error h t = Some tv ->
  getKlauder (Arr r) t T h =
    let k0 := ((b - a) / T)%fl in
    let f0 := (Np.sum [a; b] / Float.two)%fl in
    let pkt := map (Float.mul (pi * k0)%fl) tv in
    let arg := Np.zip_with Float.mul pkt (map (fun x => (T - x)%fl) tv) in
    let env := Np.zip_with Float.div (map Float.sin arg) pkt in
    let carrier :=
      map (fun x =>
             Cplx.exp (Cplx.mul (Cplx.mul two_pi_j (Cplx.of_real f0))
                                (Cplx.of_real x))) tv in
    let prod := Np.zip_with (fun e c => Cplx.mul (Cplx.of_real e) c)
                            env carrier in
    (Ok (1 + length h), h ++ [[k0]; map Cplx.real prod]).
Proof.
  intros Hr Ht. unfold getKlauder, len_arg, len. run.
  simpl length. simpl Nat.eqb. unfold assert. run.
  cbn [Np.diff map]. rewrite binop_singleton_left. run.
  rewrite binop_same_length by (now rewrite !length_map). run.
  rewrite binop_same_length
    by (rewrite length_map, length_zip_with; now rewrite !length_map). run.
  rewrite binop_same_length
    by (rewrite length_zip_with;
        rewrite ?length_map, ?length_zip_with; now rewrite ?length_map).
  run. cbv zeta. unfold alloc.
  rewrite length_app, <- app_assoc. cbn [app length].
  now rewrite (Nat.add_comm _ 1).
Qed.

Section WaveletExamples.

Local Open Scope R_scope.

Lemma ricker_sample_fin p :
  ricker_sample (Fin p) = Fin ((1 + - (2 * (p * p))) * exp (- (p * p))).
Proof. reflexivity. Qed.

Lemma ricker_sample_even f t :
  ricker_sample (pi * Fin f * Fin (- t))%fl
  = ricker_sample (pi * Fin f * Fin t)%fl.
Proof.
  unfold pi. cbn [Float.mul]. rewrite !ricker_sample_fin.
  replace (PI * f * - t * (PI * f * - t)) with (PI * f * t * (PI * f * t))
    by ring.
  reflexivity.
Qed.

Lemma ricker_sample_at_zero f :
  ricker_sample (pi * Fin f * Fin 0)%fl = Fin 1.
Proof.
  unfold pi. cbn [Float.mul]. rewrite ricker_sample_fin. f_equal.
  replace (PI * f * 0 * (PI * f * 0)) with 0 by ring.
  rewrite Ropp_0, exp_0. ring.
Qed.

(** C9: for a frequency [f > 0], the Ricker wavelet that [getRicker]
    returns on a time axis and the one it returns on the negated axis are
    the same array, [w(t) = w(-t)] sample by sample, and the sample at
    every [t = 0] is 1. *)
Theorem getRicker_even_and_one_at_zero h t t' (f : R) (ts : list R) :
  0 < f ->
  nth_error h t = Some (map Fin ts) ->
  nth_error h t' = Some (map Fin (map Ropp ts)) ->
  exists w w' h1 h2 wv,
    getRicker (Scalar (Fin f)) t h = (Ok w, h1) /\
    getRicker (Scalar (Fin f)) t' h = (Ok w', h2) /\
    nth_error h1 w = Some wv /\
    nth_error h2 w' = Some wv /\
    length wv = length ts /\
    (forall i x, nth_error ts i = Some x ->
       nth_error wv i = Some (ricker_sample (pi * Fin f * Fin x)%fl)) /\
    (forall i, nth_error ts i = Some 0 -> nth_error wv i = Some (Fin 1)).
Proof.
  intros Hf Ht Ht'.
  rewrite (getRicker_scalar_run h (Fin f) t _ Ht).
  rewrite (getRicker_scalar_run h (Fin f) t' _ Ht'). cbv zeta.
  exists (1 + length h)%nat, (1 + length h)%nat. do 3 eexists.
  split; [reflexivity|]. split; [reflexivity|].
  split; [rewrite (nth_error_app_at h _ 1); reflexivity|].
  assert (Hsample : forall i x, nth_error ts i = Some x ->
            nth_error (map ricker_sample
                         (map (Float.mul (pi * Fin f)%fl) (map Fin ts))) i
            = Some (ricker_sample (pi * Fin f * Fin x)%fl)).
  { intros i x Hi. rewrite !map_map, nth_error_map, Hi. reflexivity. }
  split; [|split; [now rewrite !length_map|split]].
  - rewrite (nth_error_app_at h _ 1). cbn [nth_error]. f_equal.
    rewrite !map_map. apply map_ext. intros x. apply ricker_sample_even.
  - exact Hsample.
  - intros i Hi. rewrite (Hsample i 0 Hi). f_equal.
    apply ricker_sample_at_zero.
Qed.

Lemma getRicker_even_and_one_at_zero_witness :
  exists w w' h1 h2 wv,
    getRicker (Scalar (Fin 50)) 0%nat wavelet_heap = (Ok w, h1) /\
    getRicker (Scalar (Fin 50)) 1%nat wavelet_heap = (Ok w', h2) /\
    nth_error h1 w = Some wv /\
    nth_error h2 w' = Some wv /\
    length wv = length [-1/100; 0; 1/100] /\
    (forall i x, nth_error [-1/100; 0; 1/100] i = Some x ->
       nth_error wv i = Some (ricker_sample (pi * Fin 50 * Fin x)%fl)) /\
    (forall i, nth_error [-1/100; 0; 1/100] i = Some 0 ->
       nth_error wv i = Some (Fin 1)).
Proof.
  apply (getRicker_even_and_one_at_zero wavelet_heap 0%nat 1%nat 50
           [-1/100; 0; 1/100]); [lra|reflexivity|reflexivity].
Defined.

Lemma getRicker_many_frequencies_witness :
  exists w h',
    getRicker (Arr 0%nat) 1%nat [[Fin 10; Fin 60]; [Fin 0; Fin 1]]
      = (Ok w, h') /\
    nth_error h' w =
      Some (map ricker_sample
              (Np.zip_with (fun f x => (pi * f * x)%fl)
                           [Fin 10; Fin 60] [Fin 0; Fin 1])).
Proof.
  apply (proj1 (getRicker_many_frequencies
                  [[Fin 10; Fin 60]; [Fin 0; Fin 1]] 0%nat 1%nat
                  [Fin 10; Fin 60] [Fin 0; Fin 1] eq_refl eq_refl
                  (Nat.lt_succ_diag_r 1))).
  reflexivity.
Defined.

(** C6 (as stated) fails: given two frequencies and a time axis of two
    samples, [getRicker] returns a wavelet. *)
Lemma getRicker_two_frequencies_returns :
  (1 < length [Fin 10; Fin 60])%nat /\
  exists w h',
    getRicker (Arr 0%nat) 1%nat [[Fin 10; Fin 60]; [Fin 0; Fin 1]]
      = (Ok w, h').
Proof.
  split; [simpl; lia|].
  rewrite (getRicker_array_run _ 0%nat 1%nat
             [Fin 10; Fin 60] [Fin 0; Fin 1]); try reflexivity.
  simpl. eauto.
Qed.

Lemma nan_mul_real_part e c :
  e = NaN -> Cplx.real (Cplx.mul (Cplx.of_real e) c) = NaN.
Proof. intros ->. destruct c as [cr ci]. reflexivity. Qed.

(** C4 (the code departs from it): [getKlauder] has no branch for
    [t = 0].  For two frequencies [f0 < f1] and any time axis of real
    numbers, the sample it returns at every [t = 0] is NaN: the quotient
    [sin(pi*k*t*(T-t)) / (pi*k*t)] is [0/0] there. *)
Theorem getKlauder_nan_at_zero h r t (f0 f1 : R) (ts : list R) (i : nat) :
  f0 < f1 ->
  nth_error h r = Some [Fin f0; Fin f1] ->
  nth_error h t = Some (map Fin ts) ->
  nth_error ts i = Some 0 ->
  exists w h' wv,
    getKlauder (Arr r) t T_default h = (Ok w, h') /\
    nth_error h' w = Some wv /\
    length wv = length ts /\
    nth_error wv i = Some NaN.
Proof.
  intros Hf Hr Ht Hi.
  rewrite (getKlauder_run h r t (Fin f0) (Fin f1) _ T_default Hr Ht).
  cbv zeta. do 3 eexists. split; [reflexivity|].
  split; [rewrite (nth_error_app_at h _ 1); reflexivity|].
  split.
  - rewrite length_map, length_zip_with; rewrite ?length_zip_with;
      rewrite ?length_map, ?length_zip_with; now rewrite ?length_map.
  - rewrite nth_error_map.
    set (k0 := ((Fin f1 - Fin f0) / T_default)%fl).
    assert (Hk : exists k, (pi * k0)%fl = Fin k).
    { unfold k0, T_default, pi. cbn [Float.sub Float.neg Float.add].
      rewrite div_fin by lra. cbn [Float.mul]. eauto. }
    destruct Hk as (k & Hk). rewrite Hk.
    assert (Hp : nth_error (map (Float.mul (Fin k)) (map Fin ts)) i
                 = Some (Fin (k * 0))).
    { rewrite map_map, nth_error_map, Hi. reflexivity. }
    assert (Ha : nth_error
                   (Np.zip_with Float.mul
                      (map (Float.mul (Fin k)) (map Fin ts))
                      (map (fun x => (T_default - x)%fl) (map Fin ts))) i
                 = Some (Fin (k * 0 * (5 + - 0)))).
    { apply (nth_error_zip_with Float.mul _ _ i (Fin (k * 0)) (Fin (5 + - 0)));
        [exact Hp|].
      rewrite map_map, nth_error_map, Hi. reflexivity. }
    assert (He : nth_error
                   (Np.zip_with Float.div
                      (map Float.sin
                         (Np.zip_with Float.mul
                            (map (Float.mul (Fin k)) (map Fin ts))
                            (map (fun x => (T_default - x)%fl)
                                 (map Fin ts))))
                      (map (Float.mul (Fin k)) (map Fin ts))) i
                 = Some NaN).
    { rewrite (nth_error_zip_with Float.div _ _ i
                 (Fin (sin (k * 0 * (5 + - 0)))) (Fin (k * 0)));
        [|rewrite nth_error_map, Ha; reflexivity|exact Hp].
      f_equal.
      replace (k * 0 * (5 + - 0)) with 0 by ring.
      replace (k * 0) with 0 by ring.
      rewrite sin_0. apply div_zero_zero. }
    match goal with
    | |- option_map _ (nth_error (Np.zip_with ?g ?env (map ?c _)) i) = _ =>
        rewrite (nth_error_zip_with g env _ i NaN (c (Fin 0)) He)
    end.
    + cbn [option_map]. now rewrite nan_mul_real_part.
    + rewrite map_map, nth_error_map, Hi. reflexivity.
Qed.

Lemma getKlauder_nan_at_zero_witness :
  exists w h' wv,
    getKlauder (Arr 2%nat) 0%nat T_default wavelet_heap = (Ok w, h') /\
    nth_error h' w = Some wv /\
    length wv = length [-1/100; 0; 1/100] /\
    nth_error wv 1 = Some NaN.
Proof.
  apply (getKlauder_nan_at_zero wavelet_heap 2%nat 0%nat 10 60
           [-1/100; 0; 1/100] 1); [lra|reflexivity|reflexivity|reflexivity].
Defined.

End WaveletExamples.

(** ** The synthesis *)

Section Synthesis.

Local Open Scope R_scope.

Lemma ceil_eq x (c : Z) : IZR c - 1 < x <= IZR c -> Np.ceil x = c.
Proof.
  intros [H1 H2]. unfold Np.ceil.
  rewrite <- (Int_part_spec (- x) (- c)%Z).
  - lia.
  - rewrite opp_IZR. lra.
Qed.

Lemma arange_fin start stop step (n : nat) :
  step <> 0 ->
  INR n - 1 < (stop - start) / step <= INR n ->
  Np.arange (Fin start) (Fin stop) (Fin step)
  = Ok (map (fun i => Fin (start + INR i * step)) (seq 0 n)).
Proof.
  intros Hs Hc. unfold Np.arange.
  cbn [Float.sub Float.neg Float.add]. rewrite div_fin by assumption.
  rewrite (ceil_eq _ (Z.of_nat n))
    by (rewrite <- INR_IZR_INZ; unfold Rminus in Hc; exact Hc).
  now rewrite Nat2Z.id.
Qed.

Lemma sort_main_d : Np.sort main_d = main_d.
Proof. np_run. reflexivity. Qed.

Lemma main_times_eq :
  Np.cumsum
    (Float.zero
     :: Np.zip_with Float.div
          (map (Float.mul Float.two) (Np.diff (main_d ++ [Fin 200])))
          main_v)
  = main_times.
Proof. unfold main_times. np_run. fin_eq. Qed.

Lemma main_times_min : Np.amin main_times = Ok (Fin 0).
Proof. unfold main_times. np_run. reflexivity. Qed.

Lemma main_times_max : Np.amax main_times = Ok (Fin (13/30)).
Proof. unfold main_times. np_run. reflexivity. Qed.

Lemma main_grid_eq :
  Np.arange (Fin 0) (Fin (13/30)) (Fin (1/10)) = Ok main_grid.
Proof.
  rewrite (arange_fin 0 (13/30) (1/10) 5) by (cbn [INR]; lra).
  unfold main_grid. cbn [seq map INR]. f_equal. fin_eq.
Qed.

Lemma lookup_ricker : lookup "RICKER" wavelet_table = ret getRicker.
Proof. reflexivity. Qed.

Lemma main_effective_eq :
  attenuate_all (range (length main_v - 1))
    (Np.zip_with Float.div
       (Np.zip_with Float.sub (tl (Np.zip_with Float.mul main_rho main_v))
          (removelast (Np.zip_with Float.mul main_rho main_v)))
       (Np.zip_with Float.add
          (removelast (Np.zip_with Float.mul main_rho main_v))
          (tl (Np.zip_with Float.mul main_rho main_v))))
  = (Ok tt, main_effective).
Proof. unfold main_effective. np_run. f_equal. fin_eq. Qed.

Lemma main_twav_eq :
  Np.arange (Fin (-2) / Fin 50)%fl (Fin 2 / Fin 50)%fl (Fin (1/10))
  = Ok [Fin (-1/25)].
Proof.
  rewrite !div_fin by lra.
  rewrite (arange_fin _ _ (1/10) 1) by (cbn [INR]; lra).
  cbn [seq map INR]. f_equal. fin_eq.
Qed.

Lemma main_argmin_first :
  Np.argmin (map (fun x => Float.abs (x - Fin (1/5))%fl) main_grid) = Ok 2%nat.
Proof. unfold main_grid. np_run. reflexivity. Qed.

Lemma main_argmin_second :
  Np.argmin (map (fun x => Float.abs (x - Fin (3/10))%fl) main_grid) = Ok 3%nat.
Proof. unfold main_grid. np_run. reflexivity. Qed.

Lemma main_grid_max : Np.amax main_grid = Ok (Fin (4/10)).
Proof. unfold main_grid. np_run. reflexivity. Qed.

(** The sibling caller [getLogs] hands [usingT] on: with [usingT = False]
    it returns the raw coefficients of the model of [__main__]. *)
Lemma getLogs_honours_flag :
  exists dpth rholog vlog zlog rseries h',
    getLogs 0%nat 1%nat 2%nat false main_heap
      = (Ok (dpth, rholog, vlog, zlog, rseries), h') /\
    nth_error h' rseries = Some [Fin (13/33); Fin (29/121)].
Proof.
  unfold getLogs, getPlotLog, np_array, main_heap. crun.
  erewrite bind_ok.
  2:{ rewrite (getImpedance_run _ 6%nat 11%nat
                 (Np.kron main_rho (Np.ones 2)) (Np.kron main_v (Np.ones 2)));
        try reflexivity. }
  cbn [length app Nat.add].
  erewrite bind_ok.
  2:{ rewrite (getReflectivity_run _ 0%nat 1%nat 2%nat false main_rho main_v
                 (Np.zip_with Float.mul main_rho main_v));
        try reflexivity. }
  cbv zeta. cbn [length app Nat.add fst snd]. unfold ret.
  do 6 eexists. split; [reflexivity|].
  cbn [nth_error]. np_run. fin_eq.
Qed.

Lemma syntheticSeismogram_flag_unused d rho v wavf wavA usingT wavtyp dt dmax :
  syntheticSeismogram d rho v wavf wavA usingT wavtyp dt dmax
  = syntheticSeismogram d rho v wavf wavA true wavtyp dt dmax.
Proof. reflexivity. Qed.

(** C1 (the code departs from it): [syntheticSeismogram] called with
    [usingT = False] on the model of [__main__] (Ricker wavelet of 50 Hz,
    [dt = 0.1], [dmax = 200]) returns, and the reflectivity it returns and
    has placed on the time grid (object 23, [rseriesconv]) is the
    attenuated series [13/33, 26680/131769]; for that flag
    [getReflectivity] itself gives the raw coefficients [13/33, 29/121]. *)
Theorem syntheticSeismogram_attenuates_when_told_not_to :
  exists o h' rs R h'',
    syntheticSeismogram 0%nat 1%nat 2%nat (Scalar (Fin 50)) (Fin 1) false
      "RICKER" (Fin (1/10)) (Fin 200) main_heap = (Ok o, h') /\
    nth_error h' (out_rseries o)
      = Some [Fin (13/33); Fin (26680/131769)] /\
    nth_error h' 23%nat
      = Some [Fin 0; Fin 0; Fin (13/33); Fin (26680/131769); Fin 0] /\
    getReflectivity 0%nat 1%nat 2%nat false main_heap = (Ok (rs, R), h'') /\
    nth_error h'' rs = Some [Fin (13/33); Fin (29/121)] /\
    26680/131769 <> 29/121.
Proof.
  unfold syntheticSeismogram, np_array, main_heap. crun.
  erewrite bind_ok.
  2:{ rewrite (getTimeDepth_same_length _ 5%nat 3%nat (Fin 200) main_d main_v);
        try reflexivity. }
  cbv zeta. cbn [length app Nat.add].
  rewrite sort_main_d, main_times_eq.
  erewrite bind_ok.
  2:{ rewrite (getReflectivity_run _ 5%nat 4%nat 3%nat true main_rho main_v
                 (Np.zip_with Float.mul main_rho main_v));
        try reflexivity. }
  cbv zeta. rewrite main_effective_eq. cbn [length app Nat.add fst snd].
  crun. rewrite main_times_min, main_times_max. crun.
  rewrite main_grid_eq. crun. unfold min_arg. crun.
  rewrite main_twav_eq. crun. rewrite lookup_ricker. crun.
  erewrite bind_ok.
  2:{ rewrite (getRicker_scalar_run _ (Fin 50) 19%nat [Fin (-1/25)]);
        try reflexivity. }
  cbv zeta. cbn [length app Nat.add]. crun. unfold len. crun.
  change (length main_grid) with 5%nat.
  change (Np.interior main_times) with (map Fin [1/5; 3/10]).
  cbn [Np.zeros repeat length map range seq for_]. crun.
  (* first interface *)
  cbn [Np.getitem nth_error]. crun.
  rewrite main_argmin_first. crun.
  unfold main_effective. cbn [Np.getitem nth_error]. crun.
  cbn [Np.setitem Nat.ltb Nat.leb length Np.set_nth]. crun.
  rewrite bind_store by (cbn [length]; lia). cbn [list_set]. crun.
  (* second interface *)
  cbn [Np.getitem nth_error]. crun.
  rewrite main_argmin_second. crun.
  cbn [Np.getitem nth_error]. crun.
  cbn [Np.setitem Nat.ltb Nat.leb length Np.set_nth]. crun.
  rewrite bind_store by (cbn [length]; lia). cbn [list_set]. crun.
  (* convolution and trimming *)
  cbn [Np.convolve]. crun. cbn [Np.amin fold_left]. crun.
  rewrite main_grid_max. crun. unfold ret.
  rewrite (getReflectivity_run _ 0%nat 1%nat 2%nat false main_rho main_v
             (Np.zip_with Float.mul main_rho main_v)); try reflexivity.
  cbv zeta. cbn [fst snd length app Nat.add].
  do 5 eexists. split; [reflexivity|].
  cbn [out_rseries nth_error].
  split; [reflexivity|]. split; [reflexivity|]. split; [reflexivity|].
  split; [np_run; fin_eq|lra].
Qed.

End Synthesis.

(** * Further properties of the code *)

(** ** Reflectivity, in general *)

Section ReflectivityGeneral.

Local Open Scope R_scope.

Lemma zip_with_fin (f : npfloat -> npfloat -> npfloat) (g : R -> R -> R)
    (xs ys : list R) :
  (forall x y, f (Fin x) (Fin y) = Fin (g x y)) ->
  Np.zip_with f (map Fin xs) (map Fin ys) = map Fin (Np.zip_with g xs ys).
Proof.
  intros Hf. revert ys; induction xs as [|x xs IH]; intros [|y ys];
    simpl; try reflexivity.
  now rewrite Hf, IH.
Qed.

Lemma impedance_fin rs vs :
  Np.zip_with Float.mul (map Fin rs) (map Fin vs)
  = map Fin (Np.zip_with Rmult rs vs).
Proof. now apply zip_with_fin. Qed.

Lemma impedance_pos rs vs :
  Forall (Rlt 0) rs -> Forall (Rlt 0) vs ->
  Forall (Rlt 0) (Np.zip_with Rmult rs vs).
Proof.
  intros Hr; revert vs; induction Hr as [|r rs Hr Hrs IH]; intros vs Hv.
  - constructor.
  - destruct Hv as [|v vs Hv Hvs]; simpl; constructor; auto.
    now apply Rmult_lt_0_compat.
Qed.

Lemma contrasts_fin zs :
  Forall (Rlt 0) zs ->
  Np.zip_with Float.div
    (Np.zip_with Float.sub (tl (map Fin zs)) (removelast (map Fin zs)))
    (Np.zip_with Float.add (removelast (map Fin zs)) (tl (map Fin zs)))
  = map Fin (contrasts zs).
Proof.
  induction 1 as [|z0 zs Hz0 Hzs IH]; [reflexivity|].
  destruct Hzs as [|z1 zs Hz1 Hzs]; [reflexivity|].
  change (map Fin (z0 :: z1 :: zs)) with (Fin z0 :: map Fin (z1 :: zs)).
  change (removelast (Fin z0 :: map Fin (z1 :: zs)))
    with (Fin z0 :: removelast (map Fin (z1 :: zs))).
  transitivity (Fin ((z1 + - z0) / (z0 + z1))
                :: map Fin (contrasts (z1 :: zs))); [|reflexivity].
  rewrite <- IH.
  change (map Fin (z1 :: zs)) with (Fin z1 :: map Fin zs).
  cbn [Np.zip_with tl Float.sub Float.add Float.neg].
  rewrite div_fin by lra. reflexivity.
Qed.

Lemma length_contrasts zs : length (contrasts zs) = Nat.pred (length zs).
Proof.
  induction zs as [|z0 [|z1 zs] IH]; simpl in *; auto.
Qed.

Lemma nth_error_contrasts zs i z0 z1 :
  nth_error zs i = Some z0 -> nth_error zs (S i) = Some z1 ->
  nth_error (contrasts zs) i = Some ((z1 - z0) / (z0 + z1)).
Proof.
  revert i; induction zs as [|a [|b zs] IH]; intros i H0 H1.
  - destruct i; discriminate.
  - destruct i; simpl in H1; [discriminate|destruct i; discriminate].
  - destruct i as [|i].
    + simpl in H0, H1. inversion H0; inversion H1; subst. reflexivity.
    + apply (IH i); assumption.
Qed.


(** X1: for density and velocity arrays of [N] positive real numbers,
    [getReflectivity] with [usingT = False] returns an array of [N - 1]
    coefficients, the one at interface [i] being
    [(Z[i+1] - Z[i]) / (Z[i] + Z[i+1])] for the impedances
    [Z[i] = rho[i] * v[i]]. *)
Theorem getReflectivity_without_loss h d rho v (rs vs : list R) :
  nth_error h rho = Some (map Fin rs) ->
  nth_error h v = Some (map Fin vs) ->
  length rs = length vs ->
  Forall (Rlt 0) rs -> Forall (Rlt 0) vs ->
  exists r h' Rv,
    getReflectivity d rho v false h = (Ok (r, r), h') /\
    nth_error h' r = Some Rv /\
    length Rv = Nat.pred (length rs) /\
    forall i r0 v0 r1 v1,
      nth_error rs i = Some r0 -> nth_error vs i = Some v0 ->
      nth_error rs (S i) = Some r1 -> nth_error vs (S i) = Some v1 ->
      nth_error Rv i
      = Some (Fin ((r1 * v1 - r0 * v0) / (r0 * v0 + r1 * v1))).
Proof.
  intros Hrho Hv Hl Hr Hvs.
  rewrite (getReflectivity_run h d rho v false _ _
             (Np.zip_with Float.mul (map Fin rs) (map Fin vs)) Hrho Hv)
    by (apply binop_same_length; now rewrite !length_map).
  cbv zeta. cbn [fst snd].
  rewrite impedance_fin, contrasts_fin by now apply impedance_pos.
  do 3 eexists. split; [reflexivity|].
  split; [rewrite (nth_error_app_at h _ 5); reflexivity|].
  split.
  - rewrite length_map, length_contrasts, length_zip_with; auto.
  - intros i r0 v0 r1 v1 H0 H1 H2 H3.
    rewrite nth_error_map.
    rewrite (nth_error_contrasts _ i (r0 * v0) (r1 * v1)).
    + reflexivity.
    + now apply nth_error_zip_with.
    + now apply nth_error_zip_with.
Qed.

Lemma getReflectivity_without_loss_witness :
  exists r h' Rv,
    getReflectivity 0%nat 1%nat 2%nat false main_heap = (Ok (r, r), h') /\
    nth_error h' r = Some Rv /\
    length Rv = Nat.pred (length [2000; 2300; 2500]) /\
    forall i r0 v0 r1 v1,
      nth_error [2000; 2300; 2500] i = Some r0 ->
      nth_error [500; 1000; 1500] i = Some v0 ->
      nth_error [2000; 2300; 2500] (S i) = Some r1 ->
      nth_error [500; 1000; 1500] (S i) = Some v1 ->
      nth_error Rv i
      = Some (Fin ((r1 * v1 - r0 * v0) / (r0 * v0 + r1 * v1))).
Proof.
  apply (getReflectivity_without_loss main_heap 0%nat 1%nat 2%nat
           [2000; 2300; 2500] [500; 1000; 1500]);
    try reflexivity; repeat constructor; lra.
Defined.







End ReflectivityGeneral.

(** ** Reflectivity: shapes and errors *)

Lemma getReflectivity_outputs_alias_witness :
  exists r R h',
    getReflectivity 0%nat 1%nat 2%nat false main_heap = (Ok (r, R), h') /\
    r = R.
Proof.
  pose proof (getReflectivity_run main_heap 0%nat 1%nat 2%nat false
                main_rho main_v _ eq_refl eq_refl eq_refl) as E.
  cbv zeta in E. cbn [fst snd] in E.
  do 3 eexists. split; [exact E|].
  exact (getReflectivity_outputs_alias _ _ _ _ _ _ _ _ E).
Defined.

Lemma getReflectivity_raise h d rho v usingT rv vv e :
  nth_error h rho = Some rv -> nth_error h v = Some vv ->
  Np.binop Float.mul rv vv = Raise e ->
  getReflectivity d rho v usingT h = (Raise e, h ++ [rv; vv]).
Proof.
  intros Hr Hv HZ. unfold getReflectivity.
  unfold bind at 1.
  rewrite (getImpedance_run h rho v rv vv Hr Hv), HZ. reflexivity.
Qed.

(** X4: [getReflectivity] has no check of its own: when the density and
    velocity arrays have different lengths, neither of them 1, it raises
    the broadcasting [ValueError] of the impedance product, for either
    value of [usingT], having created nothing but the two copies. *)
Theorem getReflectivity_length_mismatch h d rho v usingT rv vv :
  nth_error h rho = Some rv -> nth_error h v = Some vv ->
  length rv <> length vv -> length rv <> 1 -> length vv <> 1 ->
  getReflectivity d rho v usingT h = (Raise ValueError, h ++ [rv; vv]).
Proof.
  intros Hr Hv Hl H1 H2.
  apply getReflectivity_raise; auto. now apply binop_raises.
Qed.

Lemma getReflectivity_length_mismatch_witness :
  getReflectivity 0%nat 0%nat 1%nat true [main_d; [Float.one; Float.two]]
  = (Raise ValueError,
     [main_d; [Float.one; Float.two]] ++ [main_d; [Float.one; Float.two]]).
Proof.
  apply (getReflectivity_length_mismatch
           [main_d; [Float.one; Float.two]] 0%nat 0%nat 1%nat true
           main_d [Float.one; Float.two]);
    try reflexivity; simpl; lia.
Defined.

(** X5: the number of attenuation passes is [len(v) - 1].  Given a single
    velocity (which broadcasts over any number of densities)
    [getReflectivity] therefore makes no pass: with [usingT = True] it
    does exactly what it does with [usingT = False]. *)
Theorem getReflectivity_single_velocity h d rho v rv y :
  nth_error h rho = Some rv -> nth_error h v = Some [y] ->
  getReflectivity d rho v true h = getReflectivity d rho v false h /\
  exists r h', getReflectivity d rho v true h = (Ok (r, r), h').
Proof.
  intros Hr Hv.
  assert (HZ : exists Z, Np.binop Float.mul rv [y] = Ok Z).
  { destruct (Nat.eq_dec (length rv) 1) as [E|E].
    - rewrite binop_same_length by exact E. eauto.
    - rewrite binop_stretch_right by exact E. eauto. }
  destruct HZ as (Z & HZ).
  rewrite !(getReflectivity_run h d rho v _ rv [y] Z Hr Hv HZ).
  cbv zeta. cbn [length Nat.sub range seq attenuate_all fst snd].
  split; [reflexivity|eauto].
Qed.

Lemma getReflectivity_single_velocity_witness :
  getReflectivity 0%nat 0%nat 1%nat true [main_rho; [Fin 1500%R]]
  = getReflectivity 0%nat 0%nat 1%nat false [main_rho; [Fin 1500%R]] /\
  exists r h',
    getReflectivity 0%nat 0%nat 1%nat true [main_rho; [Fin 1500%R]]
    = (Ok (r, r), h').
Proof.
  apply (getReflectivity_single_velocity [main_rho; [Fin 1500%R]]
           0%nat 0%nat 1%nat main_rho (Fin 1500%R)); reflexivity.
Defined.

(** ** Time-depth conversion: shapes, errors and increments *)

Lemma nth_error_diff a i x y :
  nth_error a i = Some x -> nth_error a (S i) = Some y ->
  nth_error (Np.diff a) i = Some (y - x)%fl.
Proof.
  revert i; induction a as [|u [|w a] IH]; intros i Hx Hy.
  - destruct i; discriminate.
  - destruct i; simpl in Hy; [discriminate|destruct i; discriminate].
  - destruct i as [|i].
    + simpl in Hx, Hy. inversion Hx; inversion Hy; subst. reflexivity.
    + apply (IH i); assumption.
Qed.

Lemma nth_error_cumsum_from acc a i t w :
  nth_error (acc :: Np.cumsum_from acc a) i = Some t ->
  nth_error a i = Some w ->
  nth_error (acc :: Np.cumsum_from acc a) (S i) = Some (t + w)%fl.
Proof.
  revert acc i; induction a as [|x a IH]; intros acc i Ht Hw.
  - destruct i; discriminate.
  - destruct i as [|i].
    + simpl in Ht, Hw. inversion Ht; inversion Hw; subst. reflexivity.
    + simpl in Hw. cbn [Np.cumsum_from nth_error] in Ht |- *.
      apply (IH (acc + x)%fl i); assumption.
Qed.

(** X6: what [getTimeDepth] does with a velocity array that is not of the
    length of the depth array.  It raises [ValueError] when the lengths
    differ and neither is 1; a single velocity is used for every layer;
    and a single depth against several velocities returns one time per
    velocity, so a time array longer than the depth array. *)
Theorem getTimeDepth_velocity_shapes h d v dmax dv vv :
  nth_error h d = Some dv -> nth_error h v = Some vv ->
  (length vv <> length dv -> length vv <> 1 -> length dv <> 1 ->
     exists h', getTimeDepth d v dmax h = (Raise ValueError, h')) /\
  (forall y, vv = [y] ->
     exists rd rt h' tv,
       getTimeDepth d v dmax h = (Ok (rd, rt), h') /\
       nth_error h' rt = Some tv /\ length tv = S (length dv)) /\
  (forall x, dv = [x] ->
     exists rd rt h' dd tv,
       getTimeDepth d v dmax h = (Ok (rd, rt), h') /\
       nth_error h' rd = Some dd /\ length dd = 2 /\
       nth_error h' rt = Some tv /\ length tv = S (length vv)).
Proof.
  intros Hd Hv.
  rewrite (getTimeDepth_run h d v dmax dv vv Hd Hv). cbv zeta.
  assert (Hlen : length (map (Float.mul Float.two)
                           (Np.diff (Np.sort dv ++ [dmax]))) = length dv).
  { rewrite length_map, length_diff, length_app, length_sort. simpl. lia. }
  repeat split.
  - intros H1 H2 H3. rewrite binop_raises; rewrite ?Hlen; eauto.
  - intros y ->.
    assert (E : exists tw,
               Np.binop Float.div
                 (map (Float.mul Float.two) (Np.diff (Np.sort dv ++ [dmax])))
                 [y] = Ok tw /\ length tw = length dv).
    { destruct (Nat.eq_dec (length dv) 1) as [E|E].
      - rewrite binop_same_length by (rewrite Hlen; exact E).
        eexists. split; [reflexivity|].
        rewrite length_zip_with; rewrite Hlen; auto.
      - rewrite binop_stretch_right by (rewrite Hlen; exact E).
        eexists. split; [reflexivity|]. now rewrite length_map. }
    destruct E as (tw & -> & Htw).
    do 4 eexists. split; [reflexivity|].
    split; [rewrite (nth_error_app_at h _ 4); reflexivity|].
    rewrite length_cumsum. simpl. now rewrite Htw.
  - intros x ->. cbn [Np.sort Np.insert app Np.diff map].
    rewrite binop_singleton_left.
    do 5 eexists. split; [reflexivity|].
    split; [rewrite (nth_error_app_at h _ 1); reflexivity|].
    split; [reflexivity|].
    split; [rewrite (nth_error_app_at h _ 4); reflexivity|].
    rewrite length_cumsum. simpl. now rewrite length_map.
Qed.

Lemma getTimeDepth_velocity_shapes_witness :
  exists rd rt h' tv,
    getTimeDepth 0%nat 1%nat (Fin 200) [main_d; [Fin 1500%R]]
      = (Ok (rd, rt), h') /\
    nth_error h' rt = Some tv /\ length tv = S (length main_d).
Proof.
  destruct (getTimeDepth_velocity_shapes [main_d; [Fin 1500%R]]
              0%nat 1%nat (Fin 200) main_d [Fin 1500%R] eq_refl eq_refl)
    as (_ & H & _).
  exact (H (Fin 1500%R) eq_refl).
Defined.

(** X7: for depth and velocity arrays of the same length, the times that
    [getTimeDepth] returns start at 0, and each next one adds the two-way
    time of the layer between two consecutive returned depths:
    [t[i+1] = t[i] + 2 * (d[i+1] - d[i]) / v[i]]. *)
Theorem getTimeDepth_increments h d v dmax dv vv :
  nth_error h d = Some dv -> nth_error h v = Some vv ->
  length vv = length dv ->
  exists rd rt h' dd tv,
    getTimeDepth d v dmax h = (Ok (rd, rt), h') /\
    nth_error h' rd = Some dd /\
    nth_error h' rt = Some tv /\
    nth_error tv 0 = Some Float.zero /\
    forall i a b w t,
      nth_error dd i = Some a -> nth_error dd (S i) = Some b ->
      nth_error vv i = Some w -> nth_error tv i = Some t ->
      nth_error tv (S i) = Some (t + Float.two * (b - a) / w)%fl.
Proof.
  intros Hd Hv Hl.
  rewrite (getTimeDepth_same_length h d v dmax dv vv Hd Hv Hl). cbv zeta.
  do 5 eexists. split; [reflexivity|].
  split; [rewrite (nth_error_app_at h _ 1); reflexivity|].
  split; [rewrite (nth_error_app_at h _ 4); reflexivity|].
  split; [reflexivity|].
  intros i a b w t Ha Hb Hw Ht.
  cbn [Np.cumsum] in Ht |- *.
  apply nth_error_cumsum_from; [exact Ht|].
  apply nth_error_zip_with; [|exact Hw].
  rewrite nth_error_map, (nth_error_diff _ i a b Ha Hb). reflexivity.
Qed.

Lemma getTimeDepth_increments_witness :
  exists rd rt h' dd tv,
    getTimeDepth 0%nat 2%nat (Fin 200) main_heap = (Ok (rd, rt), h') /\
    nth_error h' rd = Some dd /\
    nth_error h' rt = Some tv /\
    nth_error tv 0 = Some Float.zero /\
    forall i a b w t,
      nth_error dd i = Some a -> nth_error dd (S i) = Some b ->
      nth_error main_v i = Some w -> nth_error tv i = Some t ->
      nth_error tv (S i) = Some (t + Float.two * (b - a) / w)%fl.
Proof.
  apply (getTimeDepth_increments main_heap 0%nat 2%nat (Fin 200)
           main_d main_v); reflexivity.
Defined.

Section SortedDepths.

Local Open Scope R_scope.

Lemma insert_fin_perm x ss :
  exists ss', Np.insert (Fin x) (map Fin ss) = map Fin ss' /\
              Permutation ss' (x :: ss).
Proof.
  induction ss as [|y ss (ss' & E & P)].
  - exists [x]. split; [reflexivity|apply Permutation_refl].
  - simpl. destruct (Rle_dec x y).
    + exists (x :: y :: ss). split; [reflexivity|apply Permutation_refl].
    + exists (y :: ss'). rewrite E. split; [reflexivity|].
      rewrite P. apply perm_swap.
Qed.

Lemma sort_fin_perm ds :
  exists ss, Np.sort (map Fin ds) = map Fin ss /\
             LocallySorted Rle ss /\ Permutation ss ds.
Proof.
  induction ds as [|x ds (ss & E & S' & P)].
  - exists []. repeat split; constructor.
  - destruct (insert_fin x ss S') as (ss1 & E1 & S1 & _).
    destruct (insert_fin_perm x ss) as (ss2 & E2 & P2).
    assert (ss1 = ss2).
    { rewrite E1 in E2. clear - E2.
      revert ss2 E2; induction ss1 as [|a ss1 IH]; intros [|b ss2] E2;
        simpl in E2; try discriminate; [reflexivity|].
      inversion E2; subst. f_equal. now apply IH. }
    subst ss2. exists ss1. simpl. rewrite E, E1.
    repeat split; auto. rewrite P2. now constructor.
Qed.

(** X8: for a depth array of real numbers given in any order and a
    velocity array of the same length, the depth sequence that
    [getTimeDepth] returns is the input depths rearranged in ascending
    order, followed by [dmax]. *)
Theorem getTimeDepth_depths_sorted h d v dmax (ds : list R) vv :
  nth_error h d = Some (map Fin ds) -> nth_error h v = Some vv ->
  length vv = length ds ->
  exists rd rt h' ss,
    getTimeDepth d v dmax h = (Ok (rd, rt), h') /\
    nth_error h' rd = Some (map Fin ss ++ [dmax]) /\
    LocallySorted Rle ss /\ Permutation ss ds.
Proof.
  intros Hd Hv Hl.
  rewrite (getTimeDepth_same_length h d v dmax _ vv Hd Hv)
    by (now rewrite length_map).
  cbv zeta. destruct (sort_fin_perm ds) as (ss & E & S' & P).
  rewrite E. exists (1 + length h)%nat. do 2 eexists. exists ss.
  split; [reflexivity|].
  split; [rewrite (nth_error_app_at h _ 1); reflexivity|auto].
Qed.

Lemma getTimeDepth_depths_sorted_witness :
  exists rd rt h' ss,
    getTimeDepth 0%nat 1%nat (Fin 200)
      [map Fin [100; 0; 50]; main_v] = (Ok (rd, rt), h') /\
    nth_error h' rd = Some (map Fin ss ++ [Fin 200]) /\
    LocallySorted Rle ss /\ Permutation ss [100; 0; 50].
Proof.
  apply (getTimeDepth_depths_sorted [map Fin [100; 0; 50]; main_v]
           0%nat 1%nat (Fin 200) [100; 0; 50] main_v); reflexivity.
Defined.

End SortedDepths.

(** ** The order of [np.sort] *)

Lemma sort_leb_total a b :
  Float.sort_leb a b = true \/ Float.sort_leb b a = true.
Proof.
  destruct a, b; simpl; auto.
  destruct (Rle_dec x x0), (Rle_dec x0 x); auto. lra.
Qed.

Lemma sort_leb_antisym a b :
  Float.sort_leb a b = true -> Float.sort_leb b a = true -> a = b.
Proof.
  destruct a, b; simpl; try discriminate; auto.
  destruct (Rle_dec x x0), (Rle_dec x0 x); try discriminate.
  intros _ _. f_equal. lra.
Qed.

Lemma sort_leb_trans a b c :
  Float.sort_leb a b = true -> Float.sort_leb b c = true ->
  Float.sort_leb a c = true.
Proof.
  destruct a, b, c; simpl; try discriminate; auto.
  destruct (Rle_dec x x0), (Rle_dec x0 x1), (Rle_dec x x1);
    try discriminate; auto.
  lra.
Qed.

Lemma insert_comm x y l :
  Np.insert x (Np.insert y l) = Np.insert y (Np.insert x l).
Proof.
  induction l as [|z l IH].
  - simpl.
    destruct (Float.sort_leb x y) eqn:Exy, (Float.sort_leb y x) eqn:Eyx;
      try reflexivity.
    + now rewrite (sort_leb_antisym x y Exy Eyx).
    + destruct (sort_leb_total x y); congruence.
  - simpl.
    destruct (Float.sort_leb y z) eqn:Eyz, (Float.sort_leb x z) eqn:Exz;
      simpl; rewrite ?Eyz, ?Exz;
      destruct (Float.sort_leb x y) eqn:Exy, (Float.sort_leb y x) eqn:Eyx;
      try reflexivity; try (now rewrite IH);
      try (now rewrite (sort_leb_antisym x y Exy Eyx));
      try (destruct (sort_leb_total x y); congruence);
      try (pose proof (sort_leb_trans _ _ _ Exy Eyz); congruence);
      try (pose proof (sort_leb_trans _ _ _ Eyx Exz); congruence).
Qed.

Lemma sort_permutation a b : Permutation a b -> Np.sort a = Np.sort b.
Proof.
  induction 1 as [|x a b _ IH|x y a|a b c _ IH1 _ IH2]; simpl.
  - reflexivity.
  - now rewrite IH.
  - apply insert_comm.
  - congruence.
Qed.

(** ** The Ormsby and Klauder wavelets: frequency counts and shapes *)

Lemma getOrmsby_run h r t fv tv s0 s1 s2 s3 :
  nth_error h r = Some fv -> nth_error h t = Some tv ->
  Np.sort fv = [s0; s1; s2; s3] ->
  getOrmsby (Arr r) t h =
    let p0 := (pi * s0)%fl in
    let p1 := (pi * s1)%fl in
    let p2 := (pi * s2)%fl in
    let p3 := (pi * s3)%fl in
    let term1 := map (fun x =>
                   (Float.sq (p3 * Float.sinc (p3 * x))
                    - Float.sq (p2 * Float.sinc p2))%fl) tv in
    let term2 := map (fun x =>
                   (Float.sq (p1 * Float.sinc (p1 * x))
                    - Float.sq (p0 * Float.sinc p0))%fl) tv in
    (Ok (4 + length h),
     h ++ [[s0; s1; s2; s3]; [p0; p1; p2; p3]; term1; term2;
           Np.zip_with Float.sub
             (map (fun x => (x / (p3 - p2))%fl) term1)
             (map (fun x => (x / (p1 - p0))%fl) term2)]).
Proof.
  intros Hr Ht Hs.
  assert (Hl : length fv = 4) by (now rewrite <- (length_sort fv), Hs).
  unfold getOrmsby, len_arg, len. run. rewrite Hl. cbn [Nat.eqb assert]. run.
  rewrite Hs. run. cbn [map Np.getitem nth_error]. run.
  rewrite binop_same_length by (now rewrite !length_map).
  cbv zeta. unfold alloc_r, bind, lift, alloc.
  rewrite !length_app, <- !app_assoc. cbn [app length].
  do 2 f_equal. lia.
Qed.

(** X9: [getOrmsby] asserts on the number of frequencies and on nothing
    else.  A scalar frequency raises [TypeError] (it has no [len]); an
    array of any length but 4 raises [AssertionError]; in both cases
    nothing has been created.  Four frequencies give one sample per entry
    of the time axis. *)
Theorem getOrmsby_frequency_count h t :
  (forall x, getOrmsby (Scalar x) t h = (Raise TypeError, h)) /\
  (forall r fv, nth_error h r = Some fv -> length fv <> 4 ->
     getOrmsby (Arr r) t h = (Raise AssertionError, h)) /\
  (forall r fv tv, nth_error h r = Some fv -> nth_error h t = Some tv ->
     length fv = 4 ->
     exists w h' wv,
       getOrmsby (Arr r) t h = (Ok w, h') /\
       nth_error h' w = Some wv /\ length wv = length tv).
Proof.
  repeat split.
  - intros r fv Hr Hl. unfold getOrmsby, len_arg, len. run.
    destruct (Nat.eqb_spec (length fv) 4) as [E|E]; [contradiction|].
    reflexivity.
  - intros r fv tv Hr Ht Hl.
    pose proof (length_sort fv) as Hs. rewrite Hl in Hs.
    destruct (Np.sort fv) as [|s0 [|s1 [|s2 [|s3 [|]]]]] eqn:E;
      try discriminate.
    rewrite (getOrmsby_run h r t fv tv s0 s1 s2 s3 Hr Ht E). cbv zeta.
    do 3 eexists. split; [reflexivity|].
    split; [rewrite (nth_error_app_at h _ 4); reflexivity|].
    rewrite length_zip_with; now rewrite !length_map.
Qed.

Lemma getOrmsby_frequency_count_witness :
  exists w h' wv,
    getOrmsby (Arr 1%nat) 0%nat
      [map Fin [-1/100; 0; 1/100]%R; map Fin [5; 10; 40; 45]%R] = (Ok w, h') /\
    nth_error h' w = Some wv /\
    length wv = length (map Fin [-1/100; 0; 1/100]%R).
Proof.
  destruct (getOrmsby_frequency_count
              [map Fin [-1/100; 0; 1/100]%R; map Fin [5; 10; 40; 45]%R]
              0%nat) as (_ & _ & H).
  exact (H 1%nat _ _ eq_refl eq_refl eq_refl).
Defined.

(** X10: [getOrmsby] sorts its frequencies before use, so the wavelet it
    returns does not depend on the order in which the four frequencies
    are given. *)
Theorem getOrmsby_order_irrelevant h r r' t fv fv' tv :
  nth_error h r = Some fv -> nth_error h r' = Some fv' ->
  nth_error h t = Some tv ->
  length fv = 4 -> Permutation fv fv' ->
  exists w h1 h2 wv,
    getOrmsby (Arr r) t h = (Ok w, h1) /\
    getOrmsby (Arr r') t h = (Ok w, h2) /\
    nth_error h1 w = Some wv /\ nth_error h2 w = Some wv.
Proof.
  intros Hr Hr' Ht Hl HP.
  pose proof (length_sort fv) as Hs. rewrite Hl in Hs.
  destruct (Np.sort fv) as [|s0 [|s1 [|s2 [|s3 [|]]]]] eqn:E;
    try discriminate.
  assert (E' : Np.sort fv' = [s0; s1; s2; s3])
    by (now rewrite <- (sort_permutation fv fv' HP)).
  rewrite (getOrmsby_run h r t fv tv s0 s1 s2 s3 Hr Ht E).
  rewrite (getOrmsby_run h r' t fv' tv s0 s1 s2 s3 Hr' Ht E').
  cbv zeta. do 4 eexists. split; [reflexivity|]. split; [reflexivity|].
  split; rewrite (nth_error_app_at h _ 4); reflexivity.
Qed.

Lemma getOrmsby_order_irrelevant_witness :
  exists w h1 h2 wv,
    getOrmsby (Arr 1%nat) 0%nat
      [[Fin 0]; [Fin 5; Fin 10; Fin 40; Fin 45];
       [Fin 10; Fin 5; Fin 40; Fin 45]] = (Ok w, h1) /\
    getOrmsby (Arr 2%nat) 0%nat
      [[Fin 0]; [Fin 5; Fin 10; Fin 40; Fin 45];
       [Fin 10; Fin 5; Fin 40; Fin 45]] = (Ok w, h2) /\
    nth_error h1 w = Some wv /\ nth_error h2 w = Some wv.
Proof.
  apply (getOrmsby_order_irrelevant
           [[Fin 0]; [Fin 5; Fin 10; Fin 40; Fin 45];
            [Fin 10; Fin 5; Fin 40; Fin 45]]
           1%nat 2%nat 0%nat
           [Fin 5; Fin 10; Fin 40; Fin 45] [Fin 10; Fin 5; Fin 40; Fin 45]
           [Fin 0]); try reflexivity.
  apply perm_swap.
Defined.

(** X11: [getKlauder] likewise: a scalar frequency raises [TypeError], an
    array of any length but 2 raises [AssertionError], nothing having
    been created; two frequencies give one sample per entry of the time
    axis. *)
Theorem getKlauder_frequency_count h t T :
  (forall x, getKlauder (Scalar x) t T h = (Raise TypeError, h)) /\
  (forall r fv, nth_error h r = Some fv -> length fv <> 2 ->
     getKlauder (Arr r) t T h = (Raise AssertionError, h)) /\
  (forall r fv tv, nth_error h r = Some fv -> nth_error h t = Some tv ->
     length fv = 2 ->
     exists w h' wv,
       getKlauder (Arr r) t T h = (Ok w, h') /\
       nth_error h' w = Some wv /\ length wv = length tv).
Proof.
  repeat split.
  - intros r fv Hr Hl. unfold getKlauder, len_arg, len. run.
    destruct (Nat.eqb_spec (length fv) 2) as [E|E]; [contradiction|].
    reflexivity.
  - intros r fv tv Hr Ht Hl.
    destruct fv as [|a [|b [|]]]; try discriminate.
    rewrite (getKlauder_run h r t a b tv T Hr Ht). cbv zeta.
    do 3 eexists. split; [reflexivity|].
    split; [rewrite (nth_error_app_at h _ 1); reflexivity|].
    rewrite length_map, length_zip_with; rewrite ?length_zip_with;
      rewrite ?length_map, ?length_zip_with; now rewrite ?length_map.
Qed.

Lemma getKlauder_frequency_count_witness :
  exists w h' wv,
    getKlauder (Arr 2%nat) 0%nat T_default wavelet_heap = (Ok w, h') /\
    nth_error h' w = Some wv /\
    length wv = length (map Fin [-1/100; 0; 1/100]%R).
Proof.
  destruct (getKlauder_frequency_count wavelet_heap 0%nat T_default)
    as (_ & _ & H).
  exact (H 2%nat _ _ eq_refl eq_refl eq_refl).
Defined.

Section KlauderSamples.

Local Open Scope R_scope.

(** X12: away from [t = 0], and for two different frequencies, the
    sample of [getKlauder] at time [t] is
    [sin(pi*k*t*(T - t)) / (pi*k*t) * cos(2*pi*fc*t)] with the sweep rate
    [k = (f1 - f0) / T], the centre frequency [fc = (f0 + f1) / 2] and
    [T = 5]: the real part of the complex sweep expression. *)
Theorem getKlauder_sample_off_zero h r t (f0 f1 : R) (ts : list R) i x :
  nth_error h r = Some [Fin f0; Fin f1] ->
  nth_error h t = Some (map Fin ts) ->
  nth_error ts i = Some x ->
  x <> 0 -> f0 <> f1 ->
  exists w h' wv,
    getKlauder (Arr r) t T_default h = (Ok w, h') /\
    nth_error h' w = Some wv /\
    nth_error wv i
    = Some (Fin (sin (PI * ((f1 - f0) / 5) * x * (5 - x))
                 / (PI * ((f1 - f0) / 5) * x)
                 * cos (2 * PI * ((f0 + f1) / 2) * x))).
Proof.
  intros Hr Ht Hi Hx Hf.
  rewrite (getKlauder_run h r t (Fin f0) (Fin f1) _ T_default Hr Ht).
  cbv zeta. do 3 eexists. split; [reflexivity|].
  split; [rewrite (nth_error_app_at h _ 1); reflexivity|].
  rewrite nth_error_map.
  set (k := PI * ((f1 - f0) / 5)).
  assert (Ek : (pi * ((Fin f1 - Fin f0) / T_default))%fl = Fin k).
  { unfold T_default, pi. cbn [Float.sub Float.neg Float.add].
    rewrite div_fin by lra. reflexivity. }
  rewrite Ek.
  assert (Hk : k * x <> 0).
  { unfold k. pose proof PI_RGT_0.
    apply Rmult_integral_contrapositive_currified; [|exact Hx].
    apply Rmult_integral_contrapositive_currified; [lra|].
    unfold Rdiv. apply Rmult_integral_contrapositive_currified; lra. }
  assert (Hp : nth_error (map (Float.mul (Fin k)) (map Fin ts)) i
               = Some (Fin (k * x))).
  { rewrite map_map, nth_error_map, Hi. reflexivity. }
  assert (Ha : nth_error
                 (Np.zip_with Float.mul
                    (map (Float.mul (Fin k)) (map Fin ts))
                    (map (fun y => (T_default - y)%fl) (map Fin ts))) i
               = Some (Fin (k * x * (5 - x)))).
  { apply (nth_error_zip_with Float.mul _ _ i (Fin (k * x)) (Fin (5 - x)));
      [exact Hp|].
    rewrite map_map, nth_error_map, Hi. reflexivity. }
  assert (He : nth_error
                 (Np.zip_with Float.div
                    (map Float.sin
                       (Np.zip_with Float.mul
                          (map (Float.mul (Fin k)) (map Fin ts))
                          (map (fun y => (T_default - y)%fl) (map Fin ts))))
                    (map (Float.mul (Fin k)) (map Fin ts))) i
               = Some (Fin (sin (k * x * (5 - x)) / (k * x)))).
  { rewrite (nth_error_zip_with Float.div _ _ i
               (Fin (sin (k * x * (5 - x)))) (Fin (k * x)));
      [|rewrite nth_error_map, Ha; reflexivity|exact Hp].
    now rewrite div_fin. }
  match goal with
  | |- option_map _ (nth_error (Np.zip_with ?g ?env (map ?c _)) i) = _ =>
      rewrite (nth_error_zip_with g env _ i _ (c (Fin x)) He)
  end.
  2:{ rewrite map_map, nth_error_map, Hi. reflexivity. }
  cbn [option_map]. f_equal.
  unfold two_pi_j, Cplx.j, Cplx.of_real, Np.sum.
  unfold Float.two, Float.zero, Float.one, pi.
  cbn [fold_left Float.add]. rewrite div_fin by lra.
  cbn [Cplx.mul Cplx.exp Cplx.real fst Float.mul Float.add
       Float.sub Float.neg Float.exp Float.cos Float.sin].
  f_equal.
  match goal with
  | |- context [exp ?a] => replace a with 0 by ring
  end.
  rewrite exp_0.
  match goal with
  | |- context [cos ?a] =>
      replace a with (2 * PI * ((f0 + f1) / 2) * x) by field
  end.
  ring.
Qed.

Lemma getKlauder_sample_off_zero_witness :
  exists w h' wv,
    getKlauder (Arr 2%nat) 0%nat T_default wavelet_heap = (Ok w, h') /\
    nth_error h' w = Some wv /\
    nth_error wv 2
    = Some (Fin (sin (PI * ((60 - 10) / 5) * (1/100) * (5 - 1/100))
                 / (PI * ((60 - 10) / 5) * (1/100))
                 * cos (2 * PI * ((10 + 60) / 2) * (1/100)))).
Proof.
  apply (getKlauder_sample_off_zero wavelet_heap 2%nat 0%nat 10 60
           [-1/100; 0; 1/100] 2 (1/100));
    try reflexivity; lra.
Defined.

End KlauderSamples.

(** ** The Ricker wavelet with a scalar frequency *)

Section RickerBound.

Local Open Scope R_scope.




End RickerBound.

(** ** Reflectivity never raises on arrays of one length *)

Lemma attenuate_below_ok i rs :
  i < length rs ->
  exists rs', attenuate_below i rs = Ok rs' /\ length rs' = length rs.
Proof.
  intros Hi. unfold attenuate_below, Np.getitem.
  destruct (nth_error rs i) as [Ri|] eqn:E;
    [|apply nth_error_None in E; lia].
  eexists. split; [reflexivity|].
  unfold Np.setslice_from, Np.from.
  rewrite length_app, length_map, length_firstn, length_skipn. lia.
Qed.

Lemma attenuate_all_ok l rs :
  (forall i, In i l -> i < length rs) ->
  exists rs', attenuate_all l rs = (Ok tt, rs') /\ length rs' = length rs.
Proof.
  revert rs; induction l as [|i l IH]; intros rs Hl.
  - exists rs. auto.
  - destruct (attenuate_below_ok i rs) as (rs1 & E1 & L1);
      [apply Hl; now left|].
    destruct (IH rs1) as (rs' & E & L).
    + intros k Hk. rewrite L1. apply Hl. now right.
    + exists rs'. cbn [attenuate_all]. rewrite E1, E. split; congruence.
Qed.

Lemma nth_error_tl {A} (l : list A) i :
  nth_error (tl l) i = nth_error l (S i).
Proof. destruct l; [destruct i|]; reflexivity. Qed.

Lemma nth_error_removelast {A} (l : list A) i :
  S i < length l -> nth_error (removelast l) i = nth_error l i.
Proof.
  revert i; induction l as [|x l IH]; intros i Hi; [simpl in Hi; lia|].
  destruct l as [|y l]; [simpl in Hi; lia|].
  change (removelast (x :: y :: l)) with (x :: removelast (y :: l)).
  destruct i as [|i]; [reflexivity|].
  cbn [nth_error]. apply IH. simpl in Hi |- *. lia.
Qed.

(** X14: on density and velocity arrays of one length [N], whatever
    their values, [getReflectivity] returns, for either value of
    [usingT], an array of [N - 1] entries: no value makes it raise. *)
Theorem getReflectivity_equal_lengths_returns h d rho v usingT rv vv :
  nth_error h rho = Some rv -> nth_error h v = Some vv ->
  length rv = length vv ->
  exists r h' Rv,
    getReflectivity d rho v usingT h = (Ok (r, r), h') /\
    nth_error h' r = Some Rv /\
    length Rv = Nat.pred (length rv).
Proof.
  intros Hr Hv Hl.
  rewrite (getReflectivity_run h d rho v usingT rv vv _ Hr Hv
             (binop_same_length Float.mul rv vv Hl)).
  cbv zeta.
  set (Z := Np.zip_with Float.mul rv vv).
  set (R := Np.zip_with Float.div _ _).
  assert (HZ : length Z = length rv) by (now apply length_zip_with).
  assert (HR : length R = Nat.pred (length rv)).
  { unfold R.
    assert (HA : length (Np.zip_with Float.sub (tl Z) (removelast Z))
                 = length (tl Z))
      by apply length_zip_with, length_tl_removelast.
    assert (HB : length (Np.zip_with Float.add (removelast Z) (tl Z))
                 = length (tl Z)).
    { rewrite length_zip_with; symmetry; apply length_tl_removelast. }
    rewrite length_zip_with by congruence. rewrite HA.
    destruct Z; simpl in *; lia. }
  destruct usingT.
  - destruct (attenuate_all_ok (range (length vv - 1)) R)
      as (rs' & E & L).
    { intros i Hi. apply in_seq in Hi. lia. }
    rewrite E. cbn [fst snd]. do 3 eexists. split; [reflexivity|].
    split; [rewrite (nth_error_app_at h _ 5); reflexivity|congruence].
  - cbn [fst snd]. do 3 eexists. split; [reflexivity|].
    split; [rewrite (nth_error_app_at h _ 5); reflexivity|exact HR].
Qed.

Lemma getReflectivity_equal_lengths_returns_witness :
  exists r h' Rv,
    getReflectivity 0%nat 1%nat 2%nat true
      [main_d; [NaN; Fin 0; PInf]; main_v] = (Ok (r, r), h') /\
    nth_error h' r = Some Rv /\
    length Rv = Nat.pred (length [NaN; Fin 0; PInf]).
Proof.
  apply (getReflectivity_equal_lengths_returns
           [main_d; [NaN; Fin 0; PInf]; main_v] 0%nat 1%nat 2%nat true
           [NaN; Fin 0; PInf] main_v); reflexivity.
Defined.

Section DegenerateInterface.

Local Open Scope R_scope.

(** X15: an interface whose two impedances sum to zero is no error for
    [getReflectivity]: with [usingT = False] the call returns, and the
    coefficient of that interface is an infinity or NaN, never a finite
    number. *)
Theorem getReflectivity_zero_sum_interface h d rho v (rs vs : list R)
    i r0 v0 r1 v1 :
  nth_error h rho = Some (map Fin rs) ->
  nth_error h v = Some (map Fin vs) ->
  length rs = length vs ->
  nth_error rs i = Some r0 -> nth_error vs i = Some v0 ->
  nth_error rs (S i) = Some r1 -> nth_error vs (S i) = Some v1 ->
  r0 * v0 + r1 * v1 = 0 ->
  exists r h' Rv c,
    getReflectivity d rho v false h = (Ok (r, r), h') /\
    nth_error h' r = Some Rv /\
    nth_error Rv i = Some c /\
    forall y, c <> Fin y.
Proof.
  intros Hrho Hv Hl H0 H1 H2 H3 Hz.
  rewrite (getReflectivity_run h d rho v false _ _
             (Np.zip_with Float.mul (map Fin rs) (map Fin vs)) Hrho Hv)
    by (apply binop_same_length; now rewrite !length_map).
  cbv zeta. cbn [fst snd]. rewrite impedance_fin.
  set (zs := Np.zip_with Rmult rs vs).
  assert (Hz0 : nth_error (map Fin zs) i = Some (Fin (r0 * v0))).
  { rewrite nth_error_map. unfold zs.
    now rewrite (nth_error_zip_with Rmult rs vs i r0 v0). }
  assert (Hz1 : nth_error (map Fin zs) (S i) = Some (Fin (r1 * v1))).
  { rewrite nth_error_map. unfold zs.
    now rewrite (nth_error_zip_with Rmult rs vs (S i) r1 v1). }
  assert (Hlt : (S i < length (map Fin zs))%nat)
    by (apply nth_error_Some; congruence).
  do 3 eexists. exists (Fin (r1 * v1 + - (r0 * v0)) / Fin (r0 * v0 + r1 * v1))%fl.
  split; [reflexivity|].
  split; [rewrite (nth_error_app_at h _ 5); reflexivity|].
  split.
  - apply nth_error_zip_with.
    + apply (nth_error_zip_with Float.sub _ _ i (Fin (r1 * v1)) (Fin (r0 * v0))).
      * now rewrite nth_error_tl.
      * now rewrite nth_error_removelast.
    + apply (nth_error_zip_with Float.add _ _ i (Fin (r0 * v0)) (Fin (r1 * v1))).
      * now rewrite nth_error_removelast.
      * now rewrite nth_error_tl.
  - intros y. rewrite Hz. cbn [Float.div].
    destruct (Req_dec_T 0 0) as [_|N]; [|now elim N].
    destruct (Float.sgn (r1 * v1 + - (r0 * v0))); discriminate.
Qed.

Lemma getReflectivity_zero_sum_interface_witness :
  exists r h' Rv c,
    getReflectivity 0%nat 0%nat 1%nat false
      [map Fin [2000; -2000]; map Fin [500; 500]] = (Ok (r, r), h') /\
    nth_error h' r = Some Rv /\
    nth_error Rv 0 = Some c /\
    forall y, c <> Fin y.
Proof.
  apply (getReflectivity_zero_sum_interface
           [map Fin [2000; -2000]; map Fin [500; 500]] 0%nat 0%nat 1%nat
           [2000; -2000] [500; 500] 0 2000 500 (-2000) 500);
    try reflexivity; lra.
Defined.

End DegenerateInterface.

(** ** Plotting logs: [getPlotLog] and [getLogs] *)

Lemma getPlotLog_run h d log dmax dv lv :
  nth_error h d = Some dv -> nth_error h log = Some lv ->
  getPlotLog d log dmax h =
    (Ok (4 + length h, 3 + length h),
     h ++ [dv; lv; Np.kron dv (Np.ones 2); Np.kron lv (Np.ones 2);
           tl (Np.kron dv (Np.ones 2)) ++ [dmax]]).
Proof.
  intros Hd Hl. unfold getPlotLog, np_array, Np.from1. run.
  unfold ret. rewrite !length_app, <- !app_assoc. cbn [app length].
  do 3 f_equal; lia.
Qed.

Section PlotLog.

Lemma kron_fin xs :
  Np.kron (map Fin xs) (Np.ones 2)
  = map Fin (flat_map (fun x => [x; x]) xs).
Proof.
  unfold Np.kron, Np.ones, Float.one. induction xs as [|x xs IH];
    [reflexivity|].
  cbn [map flat_map repeat app Float.mul] in *.
  rewrite IH, Rmult_1_r. reflexivity.
Qed.

Lemma nth_error_twice (xs : list R) i :
  nth_error (flat_map (fun x => [x; x]) xs) (2 * i) = nth_error xs i /\
  nth_error (flat_map (fun x => [x; x]) xs) (S (2 * i)) = nth_error xs i.
Proof.
  revert i; induction xs as [|x xs IH]; intros i.
  - destruct i; split; reflexivity.
  - destruct i as [|i]; [split; reflexivity|].
    replace (2 * S i) with (S (S (2 * i))) by lia.
    cbn [flat_map app nth_error]. apply IH.
Qed.

Lemma length_twice (xs : list R) :
  length (flat_map (fun x => [x; x]) xs) = (2 * length xs).
Proof. induction xs as [|x xs IH]; simpl in *; lia. Qed.

(** X16: [getPlotLog] turns a log of [N >= 1] layers into a step
    function of [2 N] points: every log value appears twice in a row, at
    the layer's own depth and at the depth of the next layer, the last
    layer ending at [dmax]. *)
Theorem getPlotLog_steps h d log dmax (ds ls : list R) :
  nth_error h d = Some (map Fin ds) ->
  nth_error h log = Some (map Fin ls) ->
  exists rd rl h' dplot logplot,
    getPlotLog d log dmax h = (Ok (rd, rl), h') /\
    nth_error h' rd = Some dplot /\
    nth_error h' rl = Some logplot /\
    length logplot = 2 * length ls /\
    (ds <> [] -> length dplot = 2 * length ds) /\
    (forall i l, nth_error ls i = Some l ->
       nth_error logplot (2 * i) = Some (Fin l) /\
       nth_error logplot (S (2 * i)) = Some (Fin l)) /\
    (forall i a, nth_error ds i = Some a ->
       nth_error dplot (2 * i) = Some (Fin a) /\
       nth_error dplot (S (2 * i))
       = Some (match nth_error ds (S i) with
               | Some b => Fin b
               | None => dmax
               end)).
Proof.
  intros Hd Hl.
  rewrite (getPlotLog_run h d log dmax _ _ Hd Hl), !kron_fin.
  do 5 eexists. split; [reflexivity|].
  split; [rewrite (nth_error_app_at h _ 4); reflexivity|].
  split; [rewrite (nth_error_app_at h _ 3); reflexivity|].
  set (dd := flat_map (fun x => [x; x]) ds).
  assert (Ldd : length (tl (map Fin dd)) = Nat.pred (2 * length ds)).
  { replace (length (tl (map Fin dd)))
      with (Nat.pred (length (map Fin dd)))
      by (destruct (map Fin dd); reflexivity).
    unfold dd. now rewrite length_map, length_twice. }
  subst dd.
  split; [now rewrite length_map, length_twice|].
  split; [|split].
  - intros Hne. rewrite length_app, Ldd. simpl.
    destruct ds; [contradiction|simpl; lia].
  - intros i l Hi. rewrite !nth_error_map.
    destruct (nth_error_twice ls i) as (-> & ->). now rewrite Hi.
  - intros i a Hi.
    assert (Hlt : (i < length ds)) by (apply nth_error_Some; congruence).
    split.
    + rewrite nth_error_app1 by lia.
      rewrite nth_error_tl, nth_error_map.
      destruct (nth_error_twice ds i) as (_ & ->). now rewrite Hi.
    + destruct (nth_error ds (S i)) as [b|] eqn:Eb.
      * assert (S i < length ds) by (apply nth_error_Some; congruence).
        rewrite nth_error_app1 by lia.
        rewrite nth_error_tl, nth_error_map.
        replace (S (S (2 * i))) with (2 * S i) by lia.
        destruct (nth_error_twice ds (S i)) as (-> & _). now rewrite Eb.
      * apply nth_error_None in Eb.
        rewrite nth_error_app2 by lia.
        match goal with
        | |- nth_error _ ?k = _ => replace k with 0 by lia
        end.
        reflexivity.
Qed.

Lemma getPlotLog_steps_witness :
  exists rd rl h' dplot logplot,
    getPlotLog 0%nat 1%nat (Fin 200) main_heap = (Ok (rd, rl), h') /\
    nth_error h' rd = Some dplot /\
    nth_error h' rl = Some logplot /\
    length logplot = 2 * length [2000; 2300; 2500]%R /\
    ([0; 50; 100]%R <> [] -> length dplot = 2 * length [0; 50; 100]%R) /\
    (forall i l, nth_error [2000; 2300; 2500]%R i = Some l ->
       nth_error logplot (2 * i) = Some (Fin l) /\
       nth_error logplot (S (2 * i)) = Some (Fin l)) /\
    (forall i a, nth_error [0; 50; 100]%R i = Some a ->
       nth_error dplot (2 * i) = Some (Fin a) /\
       nth_error dplot (S (2 * i))
       = Some (match nth_error [0; 50; 100]%R (S i) with
               | Some b => Fin b
               | None => Fin 200
               end)).
Proof.
  apply (getPlotLog_steps main_heap 0%nat 1%nat (Fin 200)
           [0; 50; 100]%R [2000; 2300; 2500]%R); reflexivity.
Defined.

End PlotLog.

Lemma nth_error_app_old {A} (h ext : list A) r x :
  nth_error h r = Some x -> nth_error (h ++ ext) r = Some x.
Proof.
  intros H. rewrite nth_error_app1; auto. apply nth_error_Some. congruence.
Qed.

Lemma length_kron2 a : length (Np.kron a (Np.ones 2)) = 2 * length a.
Proof.
  unfold Np.kron, Np.ones. induction a as [|x a IH]; simpl in *; lia.
Qed.

Lemma getLogs_run h d rho v usingT dv rv vv :
  nth_error h d = Some dv -> nth_error h rho = Some rv ->
  nth_error h v = Some vv -> length rv = length vv ->
  getLogs d rho v usingT h =
    let h3 :=
      h ++ [dv; rv; Np.kron dv (Np.ones 2); Np.kron rv (Np.ones 2);
            tl (Np.kron dv (Np.ones 2)) ++ [Fin 200];
            dv; vv; Np.kron dv (Np.ones 2); Np.kron vv (Np.ones 2);
            tl (Np.kron dv (Np.ones 2)) ++ [Fin 200];
            Np.kron rv (Np.ones 2); Np.kron vv (Np.ones 2);
            Np.zip_with Float.mul (Np.kron rv (Np.ones 2))
                        (Np.kron vv (Np.ones 2))] in
    match getReflectivity d rho v usingT h3 with
    | (Ok (rseries, _), h') =>
        (Ok (4 + length h, 3 + length h, 8 + length h, 12 + length h,
             rseries), h')
    | (Raise e, h') => (Raise e, h')
    end.
Proof.
  intros Hd Hr Hv Hrv. unfold getLogs.
  rewrite (bind_ok _ _ h _ _ (getPlotLog_run h d rho (Fin 200) dv rv Hd Hr)).
  erewrite bind_ok.
  2:{ apply (getPlotLog_run _ d v (Fin 200) dv vv);
        apply nth_error_app_old; eassumption. }
  cbv beta iota. erewrite bind_ok.
  2:{ rewrite (getImpedance_run _ _ _ (Np.kron rv (Np.ones 2))
                 (Np.kron vv (Np.ones 2))).
      - rewrite binop_same_length by (rewrite !length_kron2; lia).
        reflexivity.
      - apply nth_error_app_old.
        rewrite (nth_error_app_at h _ 3). reflexivity.
      - match goal with
        | |- nth_error (?a ++ _) _ = _ =>
            rewrite (nth_error_app_at a _ 3)
        end. reflexivity. }
  cbv zeta. rewrite !length_app, <- !app_assoc. cbn [app length].
  unfold bind, ret.
  destruct (getReflectivity d rho v usingT _) as [[[rs R]|e] h'];
    [|reflexivity].
  unfold ndarray in *.
  match goal with
  | |- (Ok (_, _, ?a, ?b, _), _) = (Ok (_, _, ?a', ?b', _), _) =>
      replace a with a' by lia; replace b with b' by lia
  end.
  reflexivity.
Qed.

(** X17: [getLogs], unlike [syntheticSeismogram], hands [usingT] on.  For
    depth, density and velocity arrays of one length [N >= 1] it returns,
    its reflectivity series holds what [getReflectivity] returns for the
    same arguments and the same flag, and its depth axis and its density,
    velocity and impedance logs all have [2 N] points. *)
Theorem getLogs_passes_flag h d rho v usingT dv rv vv :
  nth_error h d = Some dv -> nth_error h rho = Some rv ->
  nth_error h v = Some vv ->
  length dv = length rv -> length rv = length vv -> dv <> [] ->
  exists dpth rholog vlog zlog rseries h' rs R h1,
    getLogs d rho v usingT h
      = (Ok (dpth, rholog, vlog, zlog, rseries), h') /\
    getReflectivity d rho v usingT h = (Ok (rs, R), h1) /\
    nth_error h' rseries = nth_error h1 rs /\
    (forall r, In r [dpth; rholog; vlog; zlog] ->
       exists a, nth_error h' r = Some a /\ length a = 2 * length dv).
Proof.
  intros Hd Hr Hv Hdr Hrv Hne.
  rewrite (getLogs_run h d rho v usingT dv rv vv Hd Hr Hv Hrv). cbv zeta.
  set (h3 := h ++ _).
  assert (Hr3 : nth_error h3 rho = Some rv)
    by (now apply nth_error_app_old).
  assert (Hv3 : nth_error h3 v = Some vv)
    by (now apply nth_error_app_old).
  pose proof (frames_untouched _ _ h3
                (frames_getReflectivity (length h3) d rho v usingT)) as Hu.
  destruct (getReflectivity_equal_lengths_returns h3 d rho v usingT rv vv
              Hr3 Hv3 Hrv) as (r3 & h3' & R3 & E3 & HR3 & _).
  destruct (getReflectivity_equal_lengths_returns h d rho v usingT rv vv
              Hr Hv Hrv) as (r0 & h0 & R0 & E0 & HR0 & _).
  assert (HC : R3 = R0).
  { pose proof E3 as E3'. pose proof E0 as E0'.
    rewrite (getReflectivity_run h3 d rho v usingT rv vv _ Hr3 Hv3
               (binop_same_length Float.mul rv vv Hrv)) in E3'.
    rewrite (getReflectivity_run h d rho v usingT rv vv _ Hr Hv
               (binop_same_length Float.mul rv vv Hrv)) in E0'.
    cbv zeta in E3', E0'.
    inversion E3' as [[F3 G3]]. inversion E0' as [[F0 G0]].
    destruct (fst _) as [[]|e] in F3, F0; [|discriminate].
    inversion F3; inversion F0; subst r3 r0.
    rewrite <- G3 in HR3. rewrite <- G0 in HR0.
    rewrite (nth_error_app_at h3 _ 5) in HR3.
    rewrite (nth_error_app_at h _ 5) in HR0.
    cbn [nth_error] in HR3, HR0. congruence. }
  rewrite E3 in Hu |- *. cbn [snd] in Hu.
  do 9 eexists. split; [reflexivity|]. split; [exact E0|].
  split; [congruence|].
  assert (Hk : forall a, length a = length dv ->
                 length (Np.kron a (Np.ones 2)) = 2 * length dv)
    by (intros a Ha; rewrite length_kron2; lia).
  intros r [<-|[<-|[<-|[<-|[]]]]]; eexists; (split; [apply Hu|]).
  - unfold h3. rewrite (nth_error_app_at h _ 4). reflexivity.
  - rewrite length_app. cbn [length].
    replace (length (tl (Np.kron dv (Np.ones 2))))
      with (Nat.pred (length (Np.kron dv (Np.ones 2))))
      by (destruct (Np.kron dv (Np.ones 2)); reflexivity).
    rewrite length_kron2. destruct dv; [contradiction|simpl; lia].
  - unfold h3. rewrite (nth_error_app_at h _ 3). reflexivity.
  - apply Hk. lia.
  - unfold h3. rewrite (nth_error_app_at h _ 8). reflexivity.
  - apply Hk. lia.
  - unfold h3. rewrite (nth_error_app_at h _ 12). reflexivity.
  - rewrite length_zip_with; [apply Hk; lia|]. rewrite !length_kron2. lia.
Qed.

Lemma getLogs_passes_flag_witness :
  exists dpth rholog vlog zlog rseries h' rs R h1,
    getLogs 0 1 2 false main_heap
      = (Ok (dpth, rholog, vlog, zlog, rseries), h') /\
    getReflectivity 0 1 2 false main_heap = (Ok (rs, R), h1) /\
    nth_error h' rseries = nth_error h1 rs /\
    (forall r, In r [dpth; rholog; vlog; zlog] ->
       exists a, nth_error h' r = Some a /\ length a = 2 * length main_d).
Proof.
  apply (getLogs_passes_flag main_heap 0 1 2 false main_d main_rho main_v);
    try reflexivity.
  discriminate.
Defined.

(** ** The synthesis: what every returned result satisfies *)

Lemma lookup_wavelet_inv key g h h' :
  lookup key wavelet_table h = (Ok g, h') ->
  key = "RICKER"%string \/ key = "ORMSBY"%string \/ key = "KLAUDER"%string.
Proof.
  unfold wavelet_table. cbn [lookup].
  destruct (String.eqb_spec key "RICKER"); [auto|].
  destruct (String.eqb_spec key "ORMSBY"); [auto|].
  destruct (String.eqb_spec key "KLAUDER"); [auto|].
  discriminate.
Qed.







(** X18: the wavelet is looked up by name in a table of three entries:
    for any other name [syntheticSeismogram] returns no result but
    raises, whatever the other arguments. *)
Theorem syntheticSeismogram_unknown_wavelet d rho v wavf wavA usingT wavtyp
    dt dmax h :
  wavtyp <> "RICKER"%string -> wavtyp <> "ORMSBY"%string ->
  wavtyp <> "KLAUDER"%string ->
  exists e h',
    syntheticSeismogram d rho v wavf wavA usingT wavtyp dt dmax h
    = (Raise e, h').
Proof.
  intros N1 N2 N3.
  destruct (syntheticSeismogram d rho v wavf wavA usingT wavtyp dt dmax h)
    as [[o|e] h'] eqn:H; [exfalso|eauto].
  unfold syntheticSeismogram in H.
  do 3 (apply bind_inv in H; destruct H as (? & ? & _ & H)).
  apply bind_inv in H; destruct H as ([? t] & ? & _ & H).
  apply bind_inv in H; destruct H as ([rseries R] & ? & _ & H).
  do 7 (apply bind_inv in H; destruct H as (? & ? & _ & H)).
  apply bind_inv in H; destruct H as (g & ? & Hg & _).
  apply lookup_wavelet_inv in Hg. tauto.
Qed.

Lemma syntheticSeismogram_unknown_wavelet_witness :
  exists e h',
    syntheticSeismogram 0 1 2 (Scalar (Fin 50)) (Fin 1) true "GAUSS"
      (Fin (1/10)) (Fin 200) main_heap
    = (Raise e, h').
Proof.
  apply (syntheticSeismogram_unknown_wavelet 0 1 2 (Scalar (Fin 50)) (Fin 1)
           true "GAUSS" (Fin (1/10)) (Fin 200) main_heap);
    discriminate.
Defined.


Section SynthesisReturns.

Local Open Scope R_scope.



End SynthesisReturns.

(** ** The plotting helpers leave their arguments alone *)

Section PlotFrames.

Variable n : nat.

Ltac plot_frame_atom :=
  first [ apply frames_alloc | apply frames_alloc_r | apply frames_np_array
        | apply frames_load | apply frames_lift ].

Ltac plot_frame_steps :=
  repeat (eapply frames_bind; [ solve [plot_frame_atom] | intros ? ? ]).

Lemma frames_getPlotLog d log dmax :
  frames n (getPlotLog d log dmax) (fresh2 n).
Proof.
  unfold getPlotLog. plot_frame_steps. apply frames_ret. split; assumption.
Qed.

Lemma frames_getLogs d rho v usingT :
  frames n (getLogs d rho v usingT) any.
Proof.
  unfold getLogs.
  eapply frames_bind; [apply frames_getPlotLog | intros [? ?] _].
  eapply frames_bind; [apply frames_getPlotLog | intros [? ?] _].
  eapply frames_bind; [apply frames_getImpedance | intros ? _].
  eapply frames_bind; [apply frames_getReflectivity | intros [? ?] _].
  now apply frames_ret.
Qed.

End PlotFrames.

(** X20: [getPlotLog] and [getLogs] modify no array of their caller:
    whatever the arguments, and whether the call returns or raises, every
    object that was in the store before the call has the same contents
    after it. *)
Theorem plot_helpers_leave_inputs_untouched (h : heap) :
  (forall d log dmax, untouched h (snd (getPlotLog d log dmax h))) /\
  (forall d rho v usingT, untouched h (snd (getLogs d rho v usingT h))).
Proof.
  split; intros.
  - eapply frames_untouched, frames_getPlotLog.
  - eapply frames_untouched, frames_getLogs.
Qed.

(** X21: the Ormsby and Klauder wavelets take their frequencies from an
    array: called with a scalar frequency and one of these two wavelet
    names, [syntheticSeismogram] returns no result but raises. *)
Theorem syntheticSeismogram_scalar_frequency d rho v x wavA usingT wavtyp
    dt dmax h :
  wavtyp = "ORMSBY"%string \/ wavtyp = "KLAUDER"%string ->
  exists e h',
    syntheticSeismogram d rho v (Scalar x) wavA usingT wavtyp dt dmax h
    = (Raise e, h').
Proof.
  intros Hw.
  destruct (syntheticSeismogram d rho v (Scalar x) wavA usingT wavtyp
              dt dmax h) as [[o|e] h'] eqn:H; [exfalso|eauto].
  unfold syntheticSeismogram in H.
  do 3 (apply bind_inv in H; destruct H as (? & ? & _ & H)).
  apply bind_inv in H; destruct H as ([? t] & ? & _ & H).
  apply bind_inv in H; destruct H as ([rseries R] & ? & _ & H).
  do 7 (apply bind_inv in H; destruct H as (? & ? & _ & H)).
  apply bind_inv in H; destruct H as (g & ? & Hg & H).
  apply bind_inv in H; destruct H as (? & ? & Hw' & _).
  destruct Hw as [-> | ->]; inversion Hg; subst g; discriminate.
Qed.

Lemma syntheticSeismogram_scalar_frequency_witness :
  exists e h',
    syntheticSeismogram 0 1 2 (Scalar (Fin 50)) (Fin 1) true "ORMSBY"
      (Fin (1/10)) (Fin 200) main_heap
    = (Raise e, h').
Proof.
  apply (syntheticSeismogram_scalar_frequency 0 1 2 (Fin 50) (Fin 1) true
           "ORMSBY" (Fin (1/10)) (Fin 200) main_heap).
  left. reflexivity.
Defined.
